(** * Resolution of git users to Jenkins X users (package [users])

    A shallow embedding of [GitUserResolver] – [GitUserAsUser],
    [UpdateUserFromPRAuthor], [mergeGitUsers] and the conversion helpers –
    together with the properties of the identity resolution cascade.

    Go pointers that may be [nil] are [option]s, Go maps are [gmap]s (a [nil]
    map is [None]), slices are lists, and the two collaborators of the
    resolver (the typed client for [users.jenkins.io] and the git provider)
    are records of operations over an abstract store. Every call made on a
    collaborator is recorded, so that "performs exactly one Update" is a
    statement about the recorded calls. Of the logging only what the log
    lines read through a pointer that may be [nil] is modelled. Line numbers
    are those of the source file of the package. *)

From stdpp Require Import base strings gmap list.


(** ** Package [gits]: what a git provider tells about a user *)
Module gits.

Record GitUser := {
  URL : string;
  Login : string;
  Name : string;
  Email : string;
  AvatarURL : string
}.

(** The zero value [&gits.GitUser{}]. *)
Definition emptyGitUser : GitUser :=
  {| URL := ""; Login := ""; Name := ""; Email := ""; AvatarURL := "" |}.

(** Of a commit only the author is read ([commit.Author] may be [nil]). *)
Record GitCommit := {
  SHA : string;
  Message : string;
  Author : option GitUser
}.

(** Of a pull request only whether it is [nil] is read. *)
Record GitPullRequest := {
  Number : nat;
  Title : string
}.

(** The two methods of the [GitProvider] interface the resolver calls.
    [UserInfo] answers [nil] for a user it cannot find. *)
Record GitProvider := {
  Kind : string;
  UserInfo : string → option GitUser
}.

End gits.

(** ** Package [object] of go-git: the signature of a commit *)
Module object.

Record Signature := {
  Name : string;
  Email : string
}.

End object.

(** ** Package [metav1]: object metadata and list options *)
Module metav1.

Record ObjectMeta := {
  Name : string;
  Namespace : string;
  Labels : option (gmap string string)
}.

Record ListOptions := {
  LabelSelector : string
}.

End metav1.

(** ** Package [jenkinsv1]: the [User] custom resource *)
Module jenkinsv1.

Record AccountReference := {
  Provider : string;
  ID : string
}.

Record UserDetails := {
  Login : string;
  Name : string;
  Email : string;
  URL : string;
  AvatarURL : string;
  Accounts : list AccountReference
}.

Record User := {
  ObjectMeta : metav1.ObjectMeta;
  Spec : UserDetails
}.

(** [u.Name] and [u.Labels] are promoted from the embedded metadata. *)
Definition objName (u : User) : string := metav1.Name (ObjectMeta u).
Definition Labels (u : User) : option (gmap string string) :=
  metav1.Labels (ObjectMeta u).

(** Assignments to single fields. *)
Definition setEmail (email : string) (u : User) : User :=
  {| ObjectMeta := ObjectMeta u;
     Spec := {| Login := Login (Spec u); Name := Name (Spec u);
                Email := email; URL := URL (Spec u);
                AvatarURL := AvatarURL (Spec u);
                Accounts := Accounts (Spec u) |} |}.

Definition setAccounts (accounts : list AccountReference) (u : User) : User :=
  {| ObjectMeta := ObjectMeta u;
     Spec := {| Login := Login (Spec u); Name := Name (Spec u);
                Email := Email (Spec u); URL := URL (Spec u);
                AvatarURL := AvatarURL (Spec u);
                Accounts := accounts |} |}.

(** [if u.Labels == nil { u.Labels = make(map[string]string) };
     u.Labels[key] = value] *)
Definition setLabel (key value : string) (u : User) : User :=
  {| ObjectMeta :=
       {| metav1.Name := metav1.Name (ObjectMeta u);
          metav1.Namespace := metav1.Namespace (ObjectMeta u);
          metav1.Labels := Some (<[key := value]> (default ∅ (Labels u))) |};
     Spec := Spec u |}.

End jenkinsv1.


(** ** Calls on the collaborators, and their outcomes *)
Module effects.

Import jenkinsv1.

(** A Go result pair [(value, err)]. *)
Inductive result (E A : Type) : Type :=
| Ok (a : A)
| Err (e : E).
Global Arguments Ok {E A} a.
Global Arguments Err {E A} e.

(** The errors [GitUserAsUser] returns: the three [fmt.Errorf] of its own
    with what they print, an error [e] handed back by the client, and the
    run-time fault of reading through a [nil] pointer. *)
Inductive error (E : Type) : Type :=
| UserCannotBeNil
| MoreThanOneWithLabel (labelSelector : string) (found : list User)
| MoreThanOneWithLogin (login providerKey : string) (found : list string)
| MoreThanOneWithEmail (email : string) (found : list string)
| ClientError (e : E)
| NilDereference.
Global Arguments UserCannotBeNil {E}.
Global Arguments MoreThanOneWithLabel {E} labelSelector found.
Global Arguments MoreThanOneWithLogin {E} login providerKey found.
Global Arguments MoreThanOneWithEmail {E} email found.
Global Arguments ClientError {E} e.
Global Arguments NilDereference {E}.

(** The "more than one user found" errors. *)
Definition ambiguous {E} (e : error E) : bool :=
  match e with
  | MoreThanOneWithLabel _ _ | MoreThanOneWithLogin _ _ _
  | MoreThanOneWithEmail _ _ => true
  | _ => false
  end.

(** One call on the store, or one lookup of a user at the git provider, with
    its argument. [Kind()], which [GitProviderKey] reads of the provider
    (lines 184, 247, 338 and 344), is a field of the provider here and is
    not among the calls recorded. *)
Inductive call : Type :=
| CallList (opts : metav1.ListOptions)
| CallUpdate (user : User)
| CallCreate (user : User)
| CallUserInfo (login : string).

(** A list of the store by a label selector. *)
Definition bySelector (selector : string) : call :=
  CallList {| metav1.LabelSelector := selector |}.

(** The store writes among the calls. *)
Definition isWrite (c : call) : bool :=
  match c with
  | CallUpdate _ | CallCreate _ => true
  | CallList _ | CallUserInfo _ => false
  end.

Definition writes (calls : list call) : list call :=
  List.filter isWrite calls.

(** What [Update] answers, the Go pair of a pointer to a user and an error:
    the user as stored with no error, or an error beside a pointer that may
    be [nil]. *)
Inductive updateAnswer (E : Type) : Type :=
| Updated (user : User)
| NotUpdated (returned : option User) (err : E).
Global Arguments Updated {E} user.
Global Arguments NotUpdated {E} returned err.

(** The typed client [JenkinsV1().Users(ns)] over a store [W] with errors
    [E]: [List] reads the store, [Update] and [Create] may change it. *)
Record UserInterface (W E : Type) : Type := {
  List : string → metav1.ListOptions → W → result E (list User);
  Update : string → User → W → updateAnswer E * W;
  Create : string → User → W → result E User * W
}.
Global Arguments List {W E} _ ns opts w.
Global Arguments Update {W E} _ ns user w.
Global Arguments Create {W E} _ ns user w.

(** A computation over the store: its outcome, the store it leaves and the
    calls it made, in order. *)
Definition M (W E A : Type) : Type :=
  W → result (error E) A * W * list call.

Definition ret {W E A} (a : A) : M W E A := λ w, (Ok a, w, []).

Definition fail {W E A} (e : error E) : M W E A := λ w, (Err e, w, []).

Definition bind {W E A B} (m : M W E A) (k : A → M W E B) : M W E B :=
  λ w,
    match m w with
    | (Ok a, w1, calls1) =>
        match k a w1 with
        | (r, w2, calls2) => (r, w2, calls1 ++ calls2)
        end
    | (Err e, w1, calls1) => (Err e, w1, calls1)
    end.

Global Instance M_ret {W E} : MRet (M W E) := λ A, ret.
Global Instance M_bind {W E} : MBind (M W E) := λ A B k m, bind m k.

(** A record answered where a pointer that may be [nil] is expected. *)
Definition notNil {E A} (r : result E A) : result E (option A) :=
  match r with
  | Ok a => Ok (Some a)
  | Err e => Err e
  end.

Definition liftErr {E A} (r : result E A) : result (error E) A :=
  match r with
  | Ok a => Ok a
  | Err e => Err (ClientError e)
  end.

(** The answer of an [Update] whose error is tested before the user is
    read (lines 233–238, 317). *)
Definition errFirst {E} (answer : updateAnswer E) : result (error E) User :=
  match answer with
  | Updated u => Ok u
  | NotUpdated _ err => Err (ClientError err)
  end.

(** The answer of an [Update] whose user is read before the error is tested
    (lines 277–283): reading through [nil] is a run-time fault. *)
Definition readFirst {E} (answer : updateAnswer E) : result (error E) User :=
  match answer with
  | Updated u => Ok u
  | NotUpdated (Some _) err => Err (ClientError err)
  | NotUpdated None _ => Err NilDereference
  end.

End effects.

(** ** Package [users] *)
Module users.

Import jenkinsv1 effects.

(** [GitUserResolver] allows git users to be converted to Jenkins X users. *)
Record GitUserResolver (W E : Type) : Type := {
  GitProvider : gits.GitProvider;
  JXClient : UserInterface W E;
  Namespace : string
}.
Global Arguments GitProvider {W E} _.
Global Arguments JXClient {W E} _.
Global Arguments Namespace {W E} _.

Section Resolver.

Context {W E : Type} (r : GitUserResolver W E).

(** *** The calls [r] makes *)

(** [r.JXClient.JenkinsV1().Users(r.Namespace).List(opts)] *)
Definition listUsers (opts : metav1.ListOptions) : M W E (list User) :=
  λ w, (liftErr (List (JXClient r) (Namespace r) opts w), w, [CallList opts]).

(** [r.JXClient.JenkinsV1().Users(r.Namespace).Update(user)] *)
Definition updateUser (user : User) : M W E User :=
  λ w, let '(answer, w') := Update (JXClient r) (Namespace r) user w in
       (errFirst answer, w', [CallUpdate user]).

(** The same call where the log lines read [found.Name] and
    [found.Spec.Email] of the user answered before [err] is tested (lines
    277–283). *)
Definition updateUserAndLog (user : User) : M W E User :=
  λ w, let '(answer, w') := Update (JXClient r) (Namespace r) user w in
       (readFirst answer, w', [CallUpdate user]).

(** [r.JXClient.JenkinsV1().Users(r.Namespace).Create(user)] *)
Definition createUser (user : User) : M W E User :=
  λ w, let '(res, w') := Create (JXClient r) (Namespace r) user w in
       (liftErr res, w', [CallCreate user]).

(** [r.GitProvider.UserInfo(login)] *)
Definition userInfo (login : string) : M W E (option gits.GitUser) :=
  λ w, (Ok (gits.UserInfo (GitProvider r) login), w, [CallUserInfo login]).

(** *** Conversions *)

(** [GitProviderKey] returns the provider key for this resolver:
    [fmt.Sprintf("jenkins.io/git-%s-userid", r.GitProvider.Kind())]. *)
Definition GitProviderKey : string :=
  "jenkins.io/git-" +:+ gits.Kind (GitProvider r) +:+ "-userid".

(** [UserToGitUser] converts a Jenkins X user to a git user with login [id]. *)
Definition UserToGitUser (id : string) (user : User) : gits.GitUser :=
  {| gits.Login := id;
     gits.Email := Email (Spec user);
     gits.Name := Name (Spec user);
     gits.URL := URL (Spec user);
     gits.AvatarURL := AvatarURL (Spec user) |}.

(** The loop of [GitUserLogin]: the [ID] of the first account of the
    provider, or the empty string. *)
Fixpoint accountLogin (providerKey : string) (accounts : list AccountReference) : string :=
  match accounts with
  | [] => ""
  | a :: accounts =>
      if decide (Provider a = providerKey) then ID a
      else accountLogin providerKey accounts
  end.

(** [GitUserLogin] returns the login for the git provider, or an empty
    string if not found. *)
Definition GitUserLogin (user : User) : string :=
  accountLogin GitProviderKey (Accounts (Spec user)).

(** Modelled from the spec: [CreateUser] and [AddAccountReference] are not
    among the sources. Creation "synthesizes a new record" from the login,
    name and email it is called with, its store identifier being the login,
    and then "attaches one AccountReference for this provider". *)
Definition CreateUser (ns login name email : string) : User :=
  {| ObjectMeta :=
       {| metav1.Name := login; metav1.Namespace := ns; metav1.Labels := None |};
     Spec := {| Login := login; Name := name; Email := email;
                URL := ""; AvatarURL := ""; Accounts := [] |} |}.

Definition AddAccountReference (user : User) (gitProviderKey id : string) : User :=
  setAccounts
    (Accounts (Spec user) ++ [{| Provider := gitProviderKey; ID := id |}]) user.

(** [GitUserToUser] converts a git user to a Jenkins X user, attaching the
    git provider account to [Accounts]. *)
Definition GitUserToUser (gitUser : gits.GitUser) : User :=
  let user := CreateUser (Namespace r) (gits.Login gitUser) (gits.Name gitUser)
                (gits.Email gitUser) in
  AddAccountReference user GitProviderKey (gits.Login gitUser).

(** *** [mergeGitUsers] *)

(** [mergeGitUsers] merges [user1] into [user2]: every field of the answer is
    that of [user1] unless it is empty there. *)
Definition mergeGitUsers (user1 user2 : option gits.GitUser) : option gits.GitUser :=
  match user1, user2 with
  | None, _ => user2
  | Some _, None => user1
  | Some user1, Some user2 =>
      Some {|
        gits.AvatarURL :=
          if decide (gits.AvatarURL user1 ≠ "") then gits.AvatarURL user1
          else gits.AvatarURL user2;
        gits.URL :=
          if decide (gits.URL user1 ≠ "") then gits.URL user1
          else gits.URL user2;
        gits.Name :=
          if decide (gits.Name user1 ≠ "") then gits.Name user1
          else gits.Name user2;
        gits.Login :=
          if decide (gits.Login user1 ≠ "") then gits.Login user1
          else gits.Login user2;
        gits.Email :=
          if decide (gits.Email user1 ≠ "") then gits.Email user1
          else gits.Email user2
      |}
  end.

(** *** [GitUserAsUser] *)

(** Lines 211–218: one entry of [possibles] for every account of every user
    that is the account [login] of the provider. *)
Definition accountPossibles (providerKey login : string) (users : list User) : list User :=
  u ← users;
  a ← filter (λ a, Provider a = providerKey ∧ ID a = login) (Accounts (Spec u));
  [u].

(** Lines 244–254: no [possibles] without a git user, else the users whose
    email is the git user's. *)
Definition emailPossibles (gitUser : option gits.GitUser) (users : list User) : list User :=
  match gitUser with
  | None => []
  | Some gitUser => filter (λ u, Email (Spec u) = gits.Email gitUser) users
  end.

(** Lines 242–292: "finally, try to resolve by email address against git
    user, by performing a remote git call". [possibles] has an element only
    if [gitUser] is not [nil], so the branches on its length that read
    [gitUser] are the ones with a git user. The log lines 278–280 stand
    between the [Update] and the test of its error and read the user the
    [Update] answered. *)
Definition resolveByEmail (users : list User) (user : gits.GitUser) : M W E User :=
  let providerKey := GitProviderKey in
  gitUser ← userInfo (gits.Login user);
  let possibles := emailPossibles gitUser users in
  match gitUser, possibles with
  | Some gitUser, _ :: _ :: _ =>
      fail (MoreThanOneWithEmail (gits.Email gitUser) (objName <$> possibles))
  | Some gitUser, [found] =>
      let found :=
        setAccounts (Accounts (Spec found) ++
                       [{| ID := gits.Login gitUser; Provider := providerKey |}])
          found in
      let found := setLabel providerKey (gits.Login user) found in
      updateUserAndLog found
  | _, _ =>
      match mergeGitUsers gitUser (Some user) with
      | Some merged => createUser (GitUserToUser merged)
      | None => fail NilDereference
      end
  end.

(** Lines 204–240: "next try without the label - this might occur if someone
    manually updated the list". *)
Definition resolveByAccount (user : gits.GitUser) : M W E User :=
  let providerKey := GitProviderKey in
  users ← listUsers {| metav1.LabelSelector := "" |};
  if decide (gits.Login user ≠ "") then
    let possibles := accountPossibles providerKey (gits.Login user) users in
    match possibles with
    | _ :: _ :: _ =>
        fail (MoreThanOneWithLogin (gits.Login user) providerKey
                (objName <$> possibles))
    | [found] => updateUser (setLabel providerKey (gits.Login user) found)
    | [] => resolveByEmail users user
    end
  else resolveByEmail users user.

(** [GitUserAsUser] converts the git user to a Jenkins X user, completing the
    user info from the user custom resources and from the git provider.
    Lines 180–202, "first try to find by label", then the two stages above. *)
Definition GitUserAsUser (user : option gits.GitUser) : M W E User :=
  match user with
  | None => fail UserCannotBeNil
  | Some user =>
      let providerKey := GitProviderKey in
      if decide (gits.Login user ≠ "") then
        let labelSelector := providerKey +:+ "=" +:+ gits.Login user in
        users ← listUsers {| metav1.LabelSelector := labelSelector |};
        match users with
        | _ :: _ :: _ => fail (MoreThanOneWithLabel labelSelector users)
        | [found] => mret found
        | [] => resolveByAccount user
        end
      else resolveByAccount user
  end.

(** [GitSignatureAsUser] resolves the signature to a Jenkins X user: the
    git user it resolves has the email and the name of the signature and the
    zero value in every other field. *)
Definition GitSignatureAsUser (signature : object.Signature) : M W E User :=
  let gitUser :=
    {| gits.Email := object.Email signature;
       gits.Name := object.Name signature;
       gits.Login := ""; gits.URL := ""; gits.AvatarURL := "" |} in
  GitUserAsUser (Some gitUser).

(** [GitUserSliceAsUserDetailsSlice] resolves a slice of git users to a
    slice of user details: the loop of lines 166–172 with [answer] so far,
    ended by the first error. *)
Fixpoint resolveEach (answer : list UserDetails) (users : list gits.GitUser) :
    M W E (list UserDetails) :=
  match users with
  | [] => mret answer
  | user :: users =>
      u ← GitUserAsUser (Some user);
      resolveEach (answer ++ [Spec u]) users
  end.

Definition GitUserSliceAsUserDetailsSlice (users : list gits.GitUser) :
    M W E (list UserDetails) :=
  resolveEach [] users.

(** *** [UpdateUserFromPRAuthor] *)

(** Lines 306–314: the email of the first commit whose author is not [nil]
    and has login [gitLogin]. *)
Fixpoint commitAuthorEmail (gitLogin : string) (commits : list gits.GitCommit) : option string :=
  match commits with
  | [] => None
  | commit :: commits =>
      match gits.Author commit with
      | Some author =>
          if decide (gitLogin = gits.Login author) then Some (gits.Email author)
          else commitAuthorEmail gitLogin commits
      | None => commitAuthorEmail gitLogin commits
      end
  end.

(** The login the commits are compared with (lines 302–305). *)
Definition authorLogin (author : User) : string :=
  let gitLogin := GitUserLogin author in
  if decide (gitLogin = "") then Login (Spec author) else gitLogin.

Definition UpdateUserFromPRAuthor (author : option User)
    (pullRequest : option gits.GitPullRequest) (commits : list gits.GitCommit) :
    M W E (option User) :=
  match pullRequest with
  | Some _ =>
      match author with
      | Some author =>
          match commitAuthorEmail (authorLogin author) commits with
          | Some email =>
              updated ← updateUser (setEmail email author);
              mret (Some updated)
          | None => mret (Some author)
          end
      | None => mret None
      end
  | None => mret author
  end.

End Resolver.

End users.

(** ** Package [pki]: the secrets of TLS certificates *)
Module pki.

Definition certSecretPrefix : string := "tls-".

(** Of a secret and of a service only the metadata is read ([s.Name],
    [svc.GetNamespace()]). *)
Record Secret := {
  secretMeta : metav1.ObjectMeta
}.

Record Service := {
  serviceMeta : metav1.ObjectMeta
}.

Definition secretName (s : Secret) : string := metav1.Name (secretMeta s).

(** The two calls made on [client.CoreV1().Secrets(ns)], over a store [W]
    with errors [E]; [Delete] answers the error, if any. *)
Record SecretInterface (W E : Type) : Type := {
  List : string → metav1.ListOptions → W → effects.result E (list Secret);
  Delete : string → string → W → option E * W
}.
Global Arguments List {W E} _ ns opts w.
Global Arguments Delete {W E} _ ns name w.

(** The errors of [CleanCertSecrets]: the one of the list as it is, and
    "failed to delete tls secret %s: %v". *)
Inductive cleanError (E : Type) : Type :=
| ListFailed (e : E)
| FailedToDelete (name : string) (e : E).
Global Arguments ListFailed {E} e.
Global Arguments FailedToDelete {E} name e.

(** Lines 53–60: the loop over the listed secrets. Besides the error and the
    store, the names [Delete] was called with, in order. *)
Fixpoint cleanEach {W E} (client : SecretInterface W E) (ns : string)
    (secrets : list Secret) (w : W) : option (cleanError E) * W * list string :=
  match secrets with
  | [] => (None, w, [])
  | s :: secrets =>
      if String.prefix certSecretPrefix (secretName s) then
        match Delete client ns (secretName s) w with
        | (Some err, w') =>
            (Some (FailedToDelete (secretName s) err), w', [secretName s])
        | (None, w') =>
            let '(err, w'', deleted) := cleanEach client ns secrets w' in
            (err, w'', secretName s :: deleted)
        end
      else cleanEach client ns secrets w
  end.

(** [CleanCertSecrets] removes all secrets which hold a TLS certificate
    issued by cert-manager. *)
Definition CleanCertSecrets {W E} (client : SecretInterface W E) (ns : string)
    (w : W) : option (cleanError E) * W * list string :=
  match List client ns {| metav1.LabelSelector := "" |} w with
  | effects.Err err => (Some (ListFailed err), w, [])
  | effects.Ok secrets => cleanEach client ns secrets w
  end.

(** [Certificate] keeps some information related to a certificate issued by
    cert-manager. *)
Record Certificate := {
  Name : string;
  Namespace : string
}.

(** [String] returns the certificate information in a string format:
    [fmt.Sprintf("%s/%s", c.Namespace, c.Name)]. *)
Definition String (c : Certificate) : string :=
  Namespace c +:+ "/" +:+ Name c.

Section Services.

(** [kubeservices.ServiceAppName], which is not among the sources. *)
Context (ServiceAppName : Service → string).

(** [ToCertificates] converts a list of services into a list of
    certificates; the certificate name is built from the application label
    of the service. *)
Definition ToCertificates (services : list Service) : list Certificate :=
  foldl (λ result svc,
           let app := ServiceAppName svc in
           let cert := certSecretPrefix +:+ app in
           let ns := metav1.Namespace (serviceMeta svc) in
           result ++ [{| Name := cert; Namespace := ns |}])
    [] services.

End Services.

End pki.

(** ** A store held in memory *)
Module memstore.

Import jenkinsv1 effects.

Inductive storeError : Type :=
| NotFound (name : string)
| AlreadyExists (name : string).

(** Whether the labels satisfy the selector [key=value]; the empty selector
    selects everything. *)
Definition selects (selector : string) (labels : option (gmap string string)) : bool :=
  if decide (selector = "") then true
  else existsb (λ kv, bool_decide (kv.1 +:+ "=" +:+ kv.2 = selector))
         (map_to_list (default ∅ labels)).

Definition sameObject (ns name : string) (u : User) : bool :=
  bool_decide (metav1.Namespace (ObjectMeta u) = ns ∧ objName u = name).

Fixpoint replace (ns : string) (user : User) (store : list User) : list User :=
  match store with
  | [] => []
  | u :: store =>
      if sameObject ns (objName user) u then user :: store
      else u :: replace ns user store
  end.

(** Modelled from the spec: the identity store client (the clientset is not
    among the sources). [List] answers the records of the namespace that the
    label selector selects, [Update] replaces the record of the same name and
    [Create] adds a record under a name not yet taken; both answer the record
    they were given, and a refused [Update] answers [nil] beside its error. *)
Definition client : UserInterface (list User) storeError :=
  {| List ns opts store :=
       Ok (List.filter
             (λ u, bool_decide (metav1.Namespace (ObjectMeta u) = ns)
                   && selects (metav1.LabelSelector opts) (Labels u))
             store);
     Update ns user store :=
       if existsb (sameObject ns (objName user)) store
       then (Updated user, replace ns user store)
       else (NotUpdated None (NotFound (objName user)), store);
     Create ns user store :=
       if existsb (sameObject ns (objName user)) store
       then (Err (AlreadyExists (objName user)), store)
       else (Ok user, store ++ [user]) |}.

(** A git provider that knows the users of [known] by login. *)
Definition provider (kind : string) (known : list gits.GitUser) : gits.GitProvider :=
  {| gits.Kind := kind;
     gits.UserInfo login :=
       List.find (λ g, bool_decide (gits.Login g = login)) known |}.

Definition resolver (kind : string) (known : list gits.GitUser) :
    users.GitUserResolver (list User) storeError :=
  {| users.GitProvider := provider kind known;
     users.JXClient := client;
     users.Namespace := "jx" |}.

(** Sample data. *)
Definition key : string := "jenkins.io/git-github-userid".

Definition user (name email : string) (accounts : list AccountReference)
    (labels : option (gmap string string)) : User :=
  {| ObjectMeta :=
       {| metav1.Name := name; metav1.Namespace := "jx"; metav1.Labels := labels |};
     Spec := {| Login := name; Name := name; Email := email; URL := "";
                AvatarURL := ""; Accounts := accounts |} |}.

Definition gitUser (login email : string) : gits.GitUser :=
  {| gits.URL := ""; gits.Login := login; gits.Name := ""; gits.Email := email;
     gits.AvatarURL := "" |}.

Definition linked (login : string) : list AccountReference :=
  [{| Provider := key; ID := login |}].

Definition labelled (login : string) : option (gmap string string) :=
  Some {[ key := login ]}.

(** The fragment of a user observed with a profile page. *)
Definition alice : gits.GitUser :=
  {| gits.URL := "https://github.com/alice"; gits.Login := "alice";
     gits.Name := "Alice"; gits.Email := "alice@co.io"; gits.AvatarURL := "" |}.

Definition commitBy (author : option gits.GitUser) : gits.GitCommit :=
  {| gits.SHA := ""; gits.Message := ""; gits.Author := author |}.

Definition pullRequest : gits.GitPullRequest :=
  {| gits.Number := 1; gits.Title := "" |}.

(** The resolver of the examples: the store in memory and a provider that
    knows nobody. *)
Definition github : users.GitUserResolver (list User) storeError :=
  resolver "github" [].

End memstore.

(** ** A store that cannot be reached *)
Module offline.

Import jenkinsv1 effects.

Inductive outage : Type := Unavailable.

(** Every call fails; there is nothing to keep. *)
Definition client : UserInterface unit outage :=
  {| List ns opts w := Err Unavailable;
     Update ns user w := (NotUpdated None Unavailable, w);
     Create ns user w := (Err Unavailable, w) |}.

Definition resolver : users.GitUserResolver unit outage :=
  {| users.GitProvider := memstore.provider "github" [];
     users.JXClient := client;
     users.Namespace := "jx" |}.

End offline.

(** ** The vocabulary of the properties *)
Module resolution.

Import jenkinsv1 effects users.

(** The value a field of a merge takes: the primary's if non-empty, else the
    secondary's. *)
Definition preferred (primary secondary : string) : string :=
  if decide (primary = "") then secondary else primary.

Section Vocabulary.

Context {W E : Type} (r : GitUserResolver W E).

(** The two lists [GitUserAsUser] asks the store for. *)
Definition byLabel (login : string) : metav1.ListOptions :=
  {| metav1.LabelSelector := GitProviderKey r +:+ "=" +:+ login |}.

Definition everyUser : metav1.ListOptions :=
  {| metav1.LabelSelector := "" |}.

(** The account [login] of the provider of [r]. *)
Definition accountOf (login : string) : AccountReference :=
  {| Provider := GitProviderKey r; ID := login |}.

(** The record links to the account [login] of the provider of [r]. *)
Definition hasAccount (login : string) (u : User) : Prop :=
  accountOf login ∈ Accounts (Spec u).

(** The invariant of the data model: within one record, at most one account
    per provider. *)
Definition oneAccountPerProvider (u : User) : Prop :=
  NoDup (Provider <$> Accounts (Spec u)).

(** What the scan of the accounts needs of it: the record lists no account
    twice. *)
Definition noRepeatedAccount (u : User) : Prop :=
  NoDup (Accounts (Spec u)).

(** What the store answers to [Update] and [Create], as [GitUserAsUser]
    hands it back. *)
Definition updated (user : User) (w : W) : result (error E) User * W :=
  let '(answer, w') := Update (JXClient r) (Namespace r) user w in
  (errFirst answer, w').

(** What the [Update] of line 277 gives: the answer of the store, or the
    fault of the log lines when the store answers an error beside [nil]. *)
Definition updatedAndRead (user : User) (w : W) : result (error E) User * W :=
  let '(answer, w') := Update (JXClient r) (Namespace r) user w in
  (readFirst answer, w').

Definition created (user : User) (w : W) : result (error E) User * W :=
  let '(res, w') := Create (JXClient r) (Namespace r) user w in (liftErr res, w').

(** Some stage of the cascade that [GitUserAsUser] reaches for [user] on the
    store [w] finds more than one candidate. *)
Inductive SeveralCandidates (user : gits.GitUser) (w : W) : Prop :=
| several_by_label found :
    gits.Login user ≠ "" →
    List (JXClient r) (Namespace r) (byLabel (gits.Login user)) w = Ok found →
    1 < length found →
    SeveralCandidates user w
| several_by_account stored :
    gits.Login user ≠ "" →
    List (JXClient r) (Namespace r) (byLabel (gits.Login user)) w = Ok [] →
    List (JXClient r) (Namespace r) everyUser w = Ok stored →
    1 < length (accountPossibles (GitProviderKey r) (gits.Login user) stored) →
    SeveralCandidates user w
| several_by_email stored gitUser :
    gits.Login user = ""
    ∨ (List (JXClient r) (Namespace r) (byLabel (gits.Login user)) w = Ok []
       ∧ accountPossibles (GitProviderKey r) (gits.Login user) stored = []) →
    List (JXClient r) (Namespace r) everyUser w = Ok stored →
    gits.UserInfo (GitProvider r) (gits.Login user) = Some gitUser →
    1 < length (emailPossibles (Some gitUser) stored) →
    SeveralCandidates user w.

(** The writes of one run from the store [w]: none, with the store left as it
    was, or one [Update], or one [Create], the outcome and the store then
    being what the store made of that call (for the [Update] of line 277,
    read before its error is tested). *)
Definition atMostOneWrite (w : W) (res : result (error E) User) (w' : W)
    (calls : list call) : Prop :=
  (writes calls = [] ∧ w' = w)
  ∨ (∃ u, writes calls = [CallUpdate u]
          ∧ ((res, w') = updated u w ∨ (res, w') = updatedAndRead u w))
  ∨ (∃ u, writes calls = [CallCreate u] ∧ (res, w') = created u w).

(** No author of the commits has the login. *)
Definition noAuthor (login : string) (commits : list gits.GitCommit) : Prop :=
  Forall (λ commit, ∀ author,
            gits.Author commit = Some author → gits.Login author ≠ login) commits.

(** The record of the [Update] of line 233: [found] with the label. *)
Definition healedRecord (user : gits.GitUser) (found : User) : User :=
  setLabel (GitProviderKey r) (gits.Login user) found.

(** The record of the [Update] of line 277: [found] with the account of the
    git user added and with the label. *)
Definition linkedRecord (user gitUser : gits.GitUser) (found : User) : User :=
  setLabel (GitProviderKey r) (gits.Login user)
    (setAccounts (Accounts (Spec found) ++ [accountOf (gits.Login gitUser)])
       found).

(** The calls made before the whole store is listed: none without a login,
    else the list by label, which found nothing. *)
Definition listedByLabel (user : gits.GitUser) (w : W) (calls : list call) : Prop :=
  (gits.Login user = "" ∧ calls = [])
  ∨ (gits.Login user ≠ ""
     ∧ List (JXClient r) (Namespace r) (byLabel (gits.Login user)) w = Ok []
     ∧ calls = [CallList (byLabel (gits.Login user))]).

(** The runs of [GitUserAsUser] on a git user, stage by stage: the answer,
    the store left and the calls made. *)
Inductive Resolved (user : gits.GitUser) (w : W) :
    result (error E) User → W → list call → Prop :=
| label_fails e :
    gits.Login user ≠ "" →
    List (JXClient r) (Namespace r) (byLabel (gits.Login user)) w = Err e →
    Resolved user w (Err (ClientError e)) w [CallList (byLabel (gits.Login user))]
| label_several found :
    gits.Login user ≠ "" →
    List (JXClient r) (Namespace r) (byLabel (gits.Login user)) w = Ok found →
    1 < length found →
    Resolved user w
      (Err (MoreThanOneWithLabel
              (GitProviderKey r +:+ "=" +:+ gits.Login user) found))
      w [CallList (byLabel (gits.Login user))]
| label_hit found :
    gits.Login user ≠ "" →
    List (JXClient r) (Namespace r) (byLabel (gits.Login user)) w = Ok [found] →
    Resolved user w (Ok found) w [CallList (byLabel (gits.Login user))]
| list_fails before e :
    listedByLabel user w before →
    List (JXClient r) (Namespace r) everyUser w = Err e →
    Resolved user w (Err (ClientError e)) w (before ++ [CallList everyUser])
| account_several before stored :
    listedByLabel user w before →
    gits.Login user ≠ "" →
    List (JXClient r) (Namespace r) everyUser w = Ok stored →
    1 < length (accountPossibles (GitProviderKey r) (gits.Login user) stored) →
    Resolved user w
      (Err (MoreThanOneWithLogin (gits.Login user) (GitProviderKey r)
              (objName <$> accountPossibles (GitProviderKey r)
                             (gits.Login user) stored)))
      w (before ++ [CallList everyUser])
| account_hit before stored found :
    listedByLabel user w before →
    gits.Login user ≠ "" →
    List (JXClient r) (Namespace r) everyUser w = Ok stored →
    accountPossibles (GitProviderKey r) (gits.Login user) stored = [found] →
    Resolved user w
      (updated (healedRecord user found) w).1
      (updated (healedRecord user found) w).2
      (before ++ [CallList everyUser; CallUpdate (healedRecord user found)])
| email_several before stored gitUser :
    listedByLabel user w before →
    List (JXClient r) (Namespace r) everyUser w = Ok stored →
    (gits.Login user ≠ "" →
     accountPossibles (GitProviderKey r) (gits.Login user) stored = []) →
    gits.UserInfo (GitProvider r) (gits.Login user) = Some gitUser →
    1 < length (emailPossibles (Some gitUser) stored) →
    Resolved user w
      (Err (MoreThanOneWithEmail (gits.Email gitUser)
              (objName <$> emailPossibles (Some gitUser) stored)))
      w (before ++ [CallList everyUser; CallUserInfo (gits.Login user)])
| email_hit before stored gitUser found :
    listedByLabel user w before →
    List (JXClient r) (Namespace r) everyUser w = Ok stored →
    (gits.Login user ≠ "" →
     accountPossibles (GitProviderKey r) (gits.Login user) stored = []) →
    gits.UserInfo (GitProvider r) (gits.Login user) = Some gitUser →
    emailPossibles (Some gitUser) stored = [found] →
    Resolved user w
      (updatedAndRead (linkedRecord user gitUser found) w).1
      (updatedAndRead (linkedRecord user gitUser found) w).2
      (before ++ [CallList everyUser; CallUserInfo (gits.Login user);
                  CallUpdate (linkedRecord user gitUser found)])
| no_candidate before stored merged :
    listedByLabel user w before →
    List (JXClient r) (Namespace r) everyUser w = Ok stored →
    (gits.Login user ≠ "" →
     accountPossibles (GitProviderKey r) (gits.Login user) stored = []) →
    emailPossibles (gits.UserInfo (GitProvider r) (gits.Login user)) stored = [] →
    mergeGitUsers (gits.UserInfo (GitProvider r) (gits.Login user)) (Some user)
      = Some merged →
    Resolved user w
      (created (GitUserToUser r merged) w).1
      (created (GitUserToUser r merged) w).2
      (before ++ [CallList everyUser; CallUserInfo (gits.Login user);
                  CallCreate (GitUserToUser r merged)]).

(** The login of a record for the provider of [r]: the [ID] of its first
    account of the provider when that is not empty, else the login of the
    record itself. *)
Inductive loginOf (author : User) : string → Prop :=
| login_of_account before a after :
    Accounts (Spec author) = before ++ a :: after →
    Forall (λ b, Provider b ≠ GitProviderKey r) before →
    Provider a = GitProviderKey r →
    ID a ≠ "" →
    loginOf author (ID a)
| login_of_record :
    (∀ before a after,
       Accounts (Spec author) = before ++ a :: after →
       Forall (λ b, Provider b ≠ GitProviderKey r) before →
       Provider a = GitProviderKey r →
       ID a = "") →
    loginOf author (Login (Spec author)).

(** The lists of the store and the lookups at the provider among the calls. *)
Definition lists (calls : list call) : list call :=
  List.filter (λ c, match c with CallList _ => true | _ => false end) calls.

Definition lookups (calls : list call) : list call :=
  List.filter (λ c, match c with CallUserInfo _ => true | _ => false end) calls.

(** What an [Update] of [GitUserAsUser] keeps of the record it found. *)
Definition sameRecord (u found : User) : Prop :=
  objName u = objName found
  ∧ metav1.Namespace (ObjectMeta u) = metav1.Namespace (ObjectMeta found)
  ∧ Login (Spec u) = Login (Spec found)
  ∧ Name (Spec u) = Name (Spec found)
  ∧ Email (Spec u) = Email (Spec found)
  ∧ URL (Spec u) = URL (Spec found)
  ∧ AvatarURL (Spec u) = AvatarURL (Spec found).

End Vocabulary.

End resolution.

(** ** The vocabulary of the properties of [pki] *)
Module certificates.

(** The names among [names] that [CleanCertSecrets] removes. *)
Definition tlsNames (names : list string) : list string :=
  filter (λ name, String.prefix pki.certSecretPrefix name = true) names.

(** The certificate [ToCertificates] builds for one service. *)
Definition certificateOf (ServiceAppName : pki.Service → string)
    (svc : pki.Service) : pki.Certificate :=
  {| pki.Name := pki.certSecretPrefix +:+ ServiceAppName svc;
     pki.Namespace := metav1.Namespace (pki.serviceMeta svc) |}.

(** The character of the string "/". *)
Definition slash : Ascii.ascii :=
  match "/" with
  | String.String a _ => a
  | EmptyString => Ascii.zero
  end.

(** The character occurs in the string. *)
Fixpoint contains (c : Ascii.ascii) (s : string) : bool :=
  match s with
  | EmptyString => false
  | String.String a s => bool_decide (a = c) || contains c s
  end.

(** Secrets held in memory: a list is never refused, and deleting removes
    the secret of the name from the namespace. *)
Definition secret (ns name : string) : pki.Secret :=
  {| pki.secretMeta :=
       {| metav1.Name := name; metav1.Namespace := ns; metav1.Labels := None |} |}.

Definition inMemory : pki.SecretInterface (list pki.Secret) unit :=
  {| pki.List ns opts store :=
       effects.Ok
         (List.filter
            (λ s, bool_decide (metav1.Namespace (pki.secretMeta s) = ns)) store);
     pki.Delete ns name store :=
       (None,
        List.filter
          (λ s, negb (bool_decide (metav1.Namespace (pki.secretMeta s) = ns
                                   ∧ pki.secretName s = name))) store) |}.

Definition service (ns app : string) : pki.Service :=
  {| pki.serviceMeta :=
       {| metav1.Name := app; metav1.Namespace := ns; metav1.Labels := None |} |}.

(** The application of a service of the examples is its name. *)
Definition appName (svc : pki.Service) : string :=
  metav1.Name (pki.serviceMeta svc).

End certificates.

(** ** Properties *)

Import jenkinsv1 effects users resolution.

(** *** [mergeGitUsers] *)

Lemma preferred_nonempty primary secondary :
  primary ≠ "" → preferred primary secondary = primary.
Proof. intros H. unfold preferred. by destruct (decide (primary = "")). Qed.

Lemma preferred_empty secondary : preferred "" secondary = secondary.
Proof. reflexivity. Qed.

Lemma merge_field (a b : string) :
  (if decide (a ≠ "") then a else b) = preferred a b.
Proof.
  unfold preferred.
  destruct (decide (a ≠ "")), (decide (a = "")); first [done | contradiction].
Qed.

(** C7: with both fragments present every field of the merge is the primary's
    value when that is non-empty and the secondary's otherwise; with exactly
    one of them [nil] the merge is the other one, unchanged. *)
Theorem mergeGitUsers_precedence (primary secondary : gits.GitUser) :
  (∃ merged, mergeGitUsers (Some primary) (Some secondary) = Some merged
     ∧ gits.AvatarURL merged = preferred (gits.AvatarURL primary) (gits.AvatarURL secondary)
     ∧ gits.URL merged = preferred (gits.URL primary) (gits.URL secondary)
     ∧ gits.Name merged = preferred (gits.Name primary) (gits.Name secondary)
     ∧ gits.Login merged = preferred (gits.Login primary) (gits.Login secondary)
     ∧ gits.Email merged = preferred (gits.Email primary) (gits.Email secondary))
  ∧ mergeGitUsers None (Some secondary) = Some secondary
  ∧ mergeGitUsers (Some primary) None = Some primary.
Proof.
  split; [|done].
  eexists; split; [reflexivity|].
  cbn. by rewrite !merge_field.
Qed.

(** C8, amended: the merge of two [nil] fragments is [nil], no fragment at
    all, and that is the only case in which the merge is [nil]. *)
Theorem mergeGitUsers_nil_nil (user1 user2 : option gits.GitUser) :
  mergeGitUsers user1 user2 = None ↔ user1 = None ∧ user2 = None.
Proof.
  split.
  - destruct user1 as [u1|], user2 as [u2|]; cbn; intros Hnil;
      first [discriminate Hnil | done].
  - by intros [-> ->].
Qed.

(** C8 as claimed fails: what comes back for two [nil] fragments is not the
    fragment with all fields empty, nor any other fragment. *)
Lemma mergeGitUsers_nil_nil_no_fragment :
  mergeGitUsers None None ≠ Some gits.emptyGitUser
  ∧ ¬ ∃ merged, mergeGitUsers None None = Some merged.
Proof. split; [done|]. by intros [merged ?]. Qed.

(** With a second fragment present the merge is never [nil]: the creation
    stage of [GitUserAsUser] always has a fragment to convert. *)
Lemma mergeGitUsers_Some_r user1 user2 :
  ∃ merged, mergeGitUsers user1 (Some user2) = Some merged.
Proof. destruct user1; cbn; eauto. Qed.

(** *** Running the cascade *)

Section Running.

Context {W E : Type} (r : GitUserResolver W E).

Implicit Types (user : gits.GitUser) (w : W) (calls : list call).

Lemma writes_app calls1 calls2 :
  writes (calls1 ++ calls2) = writes calls1 ++ writes calls2.
Proof. apply List.filter_app. Qed.

(** A list of the store and what follows it. *)
Lemma run_listUsers {A} opts (k : list User → M W E A) w :
  (listUsers r opts ≫= k) w =
    match List (JXClient r) (Namespace r) opts w with
    | Ok stored =>
        let '(res, w', calls) := k stored w in (res, w', CallList opts :: calls)
    | Err e => (Err (ClientError e), w, [CallList opts])
    end.
Proof.
  unfold mbind, M_bind, bind, listUsers.
  by destruct (List _ _ _ _).
Qed.

(** The call on the git provider and what follows it. *)
Lemma run_userInfo {A} login (k : option gits.GitUser → M W E A) w :
  (userInfo r login ≫= k) w =
    let '(res, w', calls) := k (gits.UserInfo (GitProvider r) login) w in
    (res, w', CallUserInfo login :: calls).
Proof. reflexivity. Qed.

Lemma run_updateUser u w :
  updateUser r u w = ((updated r u w).1, (updated r u w).2, [CallUpdate u]).
Proof.
  unfold updateUser, updated. by destruct (Update _ _ _ _).
Qed.

Lemma run_updateUserAndLog u w :
  updateUserAndLog r u w
  = ((updatedAndRead r u w).1, (updatedAndRead r u w).2, [CallUpdate u]).
Proof.
  unfold updateUserAndLog, updatedAndRead. by destruct (Update _ _ _ _).
Qed.

(** What is read first of an [Update] is no "more than one user found". *)
Lemma updatedAndRead_not_ambiguous u w e :
  (updatedAndRead r u w).1 = Err e → ambiguous e = false.
Proof.
  unfold updatedAndRead.
  destruct (Update _ _ _ _) as [[?|[?|] ?] ?]; cbn; intros [= <-]; done.
Qed.

Lemma updated_not_ambiguous u w e :
  (updated r u w).1 = Err e → ambiguous e = false.
Proof.
  unfold updated.
  destruct (Update _ _ _ _) as [[?|? ?] ?]; cbn; intros [= <-]; done.
Qed.

Lemma created_not_ambiguous u w e :
  (created r u w).1 = Err e → ambiguous e = false.
Proof.
  unfold created.
  destruct (Create _ _ _ _) as [[?|?] ?]; cbn; intros [= <-]; done.
Qed.

Lemma run_createUser u w :
  createUser r u w = ((created r u w).1, (created r u w).2, [CallCreate u]).
Proof.
  unfold createUser, created. by destruct (Create _ _ _ _).
Qed.

(** The stage of lines 242–292 by the number of users with the email. *)
Lemma resolveByEmail_not_found stored user w :
  gits.UserInfo (GitProvider r) (gits.Login user) = None →
  resolveByEmail r stored user w =
    ((created r (GitUserToUser r user) w).1,
     (created r (GitUserToUser r user) w).2,
     [CallUserInfo (gits.Login user); CallCreate (GitUserToUser r user)]).
Proof.
  intros Hinfo. unfold resolveByEmail. rewrite run_userInfo, Hinfo. cbn.
  by rewrite run_createUser.
Qed.

Lemma resolveByEmail_several stored user gitUser w :
  gits.UserInfo (GitProvider r) (gits.Login user) = Some gitUser →
  1 < length (emailPossibles (Some gitUser) stored) →
  resolveByEmail r stored user w =
    (Err (MoreThanOneWithEmail (gits.Email gitUser)
            (objName <$> emailPossibles (Some gitUser) stored)),
     w, [CallUserInfo (gits.Login user)]).
Proof.
  intros Hinfo Hlen. unfold resolveByEmail. rewrite run_userInfo, Hinfo.
  destruct (emailPossibles (Some gitUser) stored) as [|u1 [|u2 l]];
    cbn in Hlen; [lia..|done].
Qed.

(** Whatever the store and the provider answer, the stage of lines 242–292
    writes at most once, and an ambiguity is reported without a write. *)
Lemma resolveByEmail_writes stored user w :
  ∃ res w' calls,
    resolveByEmail r stored user w = (res, w', CallUserInfo (gits.Login user) :: calls)
    ∧ ((calls = [] ∧ w' = w
        ∧ ∃ email found, res = Err (MoreThanOneWithEmail email found))
       ∨ (∃ u, calls = [CallUpdate u] ∧ (res, w') = updatedAndRead r u w)
       ∨ (∃ u, calls = [CallCreate u] ∧ (res, w') = created r u w)).
Proof.
  unfold resolveByEmail. rewrite run_userInfo.
  destruct (gits.UserInfo _ _) as [gitUser|]; cbn.
  - destruct (filter _ stored) as [|u1 [|u2 l]].
    + rewrite run_createUser. do 3 eexists. split; [done|].
      right; right. eexists; split; [done|]. by destruct (created _ _ _).
    + rewrite run_updateUserAndLog. do 3 eexists. split; [done|].
      right; left. eexists; split; [done|]. by destruct (updatedAndRead _ _ _).
    + do 3 eexists. split; [done|]. left. repeat split; eauto.
  - rewrite run_createUser. do 3 eexists. split; [done|].
    right; right. eexists; split; [done|]. by destruct (created _ _ _).
Qed.

End Running.

(** *** The cascade of [GitUserAsUser] *)

Section Cascade.

Context {W E : Type} (r : GitUserResolver W E).

Implicit Types (user : gits.GitUser) (w : W) (calls : list call).

(** C6: when the store lists exactly one record under the label of the login,
    [GitUserAsUser] answers that record after that one list, with no write
    and the store as it was; resolving twice in a row therefore answers the
    same record both times and leaves the store unchanged. *)
Theorem fast_path_idempotent user found w :
  gits.Login user ≠ "" →
  List (JXClient r) (Namespace r) (byLabel r (gits.Login user)) w = Ok [found] →
  GitUserAsUser r (Some user) w
    = (Ok found, w, [CallList (byLabel r (gits.Login user))])
  ∧ writes [CallList (byLabel r (gits.Login user))] = []
  ∧ ∃ calls,
      (first ← GitUserAsUser r (Some user);
       second ← GitUserAsUser r (Some user);
       mret (first, second)) w = (Ok (found, found), w, calls)
      ∧ writes calls = [].
Proof.
  intros Hlogin Hlist.
  assert (GitUserAsUser r (Some user) w
          = (Ok found, w, [CallList (byLabel r (gits.Login user))])) as Hrun.
  { unfold GitUserAsUser. destruct (decide _) as [_|]; [|done].
    fold (byLabel r (gits.Login user)). by rewrite run_listUsers, Hlist. }
  split; [done|]. split; [done|].
  eexists. unfold mbind at 1, M_bind at 1, bind at 1. rewrite Hrun.
  unfold mbind at 1, M_bind at 1, bind at 1. rewrite Hrun. cbn.
  split; reflexivity.
Qed.

(** C2: when a stage that [GitUserAsUser] reaches finds more than one
    candidate – by label, by account or by email – the answer is one of the
    "more than one user found" errors, the store is left as it was and no
    [Update] or [Create] was called. *)
Theorem ambiguity_is_an_error user w :
  SeveralCandidates r user w →
  ∃ e calls,
    GitUserAsUser r (Some user) w = (Err e, w, calls)
    ∧ ambiguous e = true
    ∧ writes calls = [].
Proof.
  intros [found Hlogin Hlabel Hlen
         |stored Hlogin Hlabel Hall Hlen
         |stored gitUser Hreach Hall Hinfo Hlen];
    unfold GitUserAsUser.
  - destruct (decide _) as [_|]; [|done].
    fold (byLabel r (gits.Login user)). rewrite run_listUsers, Hlabel.
    destruct found as [|u1 [|u2 l]]; cbn in Hlen; [lia..|].
    by eexists _, _.
  - destruct (decide _) as [_|]; [|done].
    fold (byLabel r (gits.Login user)). rewrite run_listUsers, Hlabel.
    unfold resolveByAccount. fold (@everyUser). rewrite run_listUsers, Hall.
    destruct (decide _) as [_|]; [|done].
    destruct (accountPossibles _ _ stored) as [|u1 [|u2 l]];
      cbn in Hlen; [lia..|].
    by eexists _, _.
  - assert (resolveByAccount r user w
            = (Err (MoreThanOneWithEmail (gits.Email gitUser)
                      (objName <$> emailPossibles (Some gitUser) stored)),
               w, [CallList everyUser; CallUserInfo (gits.Login user)])) as Hrun.
    { unfold resolveByAccount. fold (@everyUser). rewrite run_listUsers, Hall.
      destruct (decide _) as [Hlogin|Hlogin].
      - destruct Hreach as [?|[_ ->]]; [done|].
        by rewrite (resolveByEmail_several _ _ _ gitUser).
      - by rewrite (resolveByEmail_several _ _ _ gitUser). }
    destruct (decide _) as [Hlogin|Hlogin].
    + destruct Hreach as [?|[Hlabel _]]; [done|].
      fold (byLabel r (gits.Login user)). rewrite run_listUsers, Hlabel, Hrun.
      by eexists _, _.
    + rewrite Hrun. by eexists _, _.
Qed.

(** The stages after the label, lines 204–292: at most one write, and none
    when more than one user was found. *)
Lemma resolveByAccount_writes user w :
  ∃ res w' calls,
    resolveByAccount r user w = (res, w', calls)
    ∧ atMostOneWrite r w res w' calls
    ∧ (writes calls = [] → ∃ e, res = Err e)
    ∧ (∀ e, res = Err e → ambiguous e = true → writes calls = []).
Proof.
  assert (∀ stored,
    ∃ res w' calls,
      resolveByEmail r stored user w = (res, w', calls)
      ∧ atMostOneWrite r w res w' calls
      ∧ (writes calls = [] → ∃ e, res = Err e)
      ∧ (∀ e, res = Err e → ambiguous e = true → writes calls = []))
    as Hemail.
  { intros stored.
    destruct (resolveByEmail_writes r stored user w)
      as (res & w' & calls & -> &
          [(-> & -> & email & found & ->)|[[u [-> Hu]]|[u [-> Hu]]]]).
    - eexists _, _, _. split; [done|]. split; [by left|]. split; eauto.
    - eexists _, _, _. split; [done|].
      split; [right; left; eauto|]. split; [done|].
      intros e -> He. apply (f_equal fst) in Hu. cbn in Hu. symmetry in Hu.
      apply updatedAndRead_not_ambiguous in Hu. congruence.
    - eexists _, _, _. split; [done|].
      split; [right; right; eauto|]. split; [done|].
      intros e -> He. apply (f_equal fst) in Hu. cbn in Hu. symmetry in Hu.
      apply created_not_ambiguous in Hu. congruence. }
  unfold resolveByAccount. fold (@everyUser). rewrite run_listUsers.
  destruct (List _ _ _ _) as [stored|e].
  2:{ eexists _, _, _. split; [done|]. split; [by left|]. split; [eauto|done]. }
  pose proof (Hemail stored) as (res & w' & calls & Hrun & Hone & Hzero & Herr).
  destruct (decide _) as [Hlogin|Hlogin].
  - destruct (accountPossibles _ _ stored) as [|u1 [|u2 l]].
    + rewrite Hrun. eexists _, _, _. split; [done|]. by repeat split.
    + rewrite run_updateUser. eexists _, _, _. split; [done|].
      split.
      { right; left. eexists. split; [done|]. left. by destruct (updated _ _ _). }
      split; [done|].
      intros e He Hamb. apply updated_not_ambiguous in He. congruence.
    + eexists _, _, _. split; [done|]. split; [by left|]. split; [eauto|done].
  - rewrite Hrun. eexists _, _, _. split; [done|]. by repeat split.
Qed.

(** C4: one run of [GitUserAsUser] calls [Update] or [Create] at most once.
    Without a write the store is left as it was and the answer is an error
    or the record found by its label; with a write it is one [Update] or one
    [Create], the store is as that call left it and the answer is the
    store's, or, for the [Update] of line 277 answered by an error beside
    [nil], the fault of reading it. The errors of [GitUserAsUser] itself,
    for a [nil] user or more than one user found, come without a write. *)
Theorem at_most_one_write (user : option gits.GitUser) w :
  ∃ res w' calls,
    GitUserAsUser r user w = (res, w', calls)
    ∧ length (writes calls) ≤ 1
    ∧ atMostOneWrite r w res w' calls
    ∧ (writes calls = [] →
         (∃ e, res = Err e)
         ∨ (∃ login found,
              List (JXClient r) (Namespace r) (byLabel r login) w = Ok [found]
              ∧ res = Ok found))
    ∧ (∀ e, res = Err e → e = UserCannotBeNil ∨ ambiguous e = true →
         writes calls = []).
Proof.
  assert (∀ res w' calls,
            atMostOneWrite r w res w' calls → length (writes calls) ≤ 1) as Hlen.
  { intros res w' calls [[-> _]|[[u [-> _]]|[u [-> _]]]]; cbn; lia. }
  destruct user as [user|]; cbn.
  2:{ eexists _, _, _. split; [done|]. cbn.
      split; [lia|]. split; [by left|]. split; eauto. }
  destruct (resolveByAccount_writes user w)
    as (res & w' & calls & Hrun & Hone & Hzero & Herr).
  assert (∀ e, res = Err e → e = UserCannotBeNil ∨ ambiguous e = true →
               writes calls = []) as Herr'.
  { intros e -> [->|Hamb]; [|by eapply Herr].
    destruct Hone as [[? _]|[[u [_ [Hu|Hu]]]|[u [_ Hu]]]]; [done|..];
      apply (f_equal fst) in Hu; cbn in Hu; exfalso; revert Hu;
      unfold updated, updatedAndRead, created;
      [destruct (Update _ _ _ _) as [[?|? ?] ?]
      |destruct (Update _ _ _ _) as [[?|[?|] ?] ?]
      |destruct (Create _ _ _ _) as [[?|?] ?]]; cbn; discriminate. }
  destruct (decide _) as [Hlogin|Hlogin].
  - fold (byLabel r (gits.Login user)). rewrite run_listUsers.
    destruct (List _ _ _ _) as [[|u1 [|u2 l]]|e] eqn:Hlabel.
    + rewrite Hrun. eexists _, _, _. split; [done|].
      split; [by eapply Hlen|]. split; [done|]. split; [|done].
      intros Hw. left. by apply Hzero.
    + eexists _, _, _. split; [done|]. cbn.
      split; [lia|]. split; [by left|]. split; [|done].
      intros _. right. eauto.
    + eexists _, _, _. split; [done|]. cbn.
      split; [lia|]. split; [by left|]. split; eauto.
    + eexists _, _, _. split; [done|]. cbn.
      split; [lia|]. split; [by left|]. split; eauto.
  - rewrite Hrun. eexists _, _, _. split; [done|].
    split; [by eapply Hlen|]. split; [done|]. split; [|done].
    intros Hw. left. by apply Hzero.
Qed.

(** Without a login neither the label nor the accounts are looked at. *)
Lemma GitUserAsUser_no_login user w :
  gits.Login user = "" →
  GitUserAsUser r (Some user) w
    = (stored ← listUsers r everyUser; resolveByEmail r stored user) w.
Proof.
  intros Hlogin. unfold GitUserAsUser, resolveByAccount.
  by destruct (decide (gits.Login user ≠ "")).
Qed.

(** A signature has no login: [GitSignatureAsUser] always resolves by the
    provider lookup and the email. *)
Lemma GitSignatureAsUser_no_login signature w :
  ∃ user,
    gits.Login user = ""
    ∧ gits.Email user = object.Email signature
    ∧ gits.Name user = object.Name signature
    ∧ GitSignatureAsUser r signature w
      = (stored ← listUsers r everyUser; resolveByEmail r stored user) w.
Proof.
  eexists. split; [|split; [|split]]; [..|by apply GitUserAsUser_no_login]; done.
Qed.

(** C10: with an empty login [GitUserAsUser] lists the whole store and goes
    on with the provider lookup at once: the store is never listed by label,
    an ambiguity it reports is one of emails, and a record it answers is the
    store's answer to the one [Update] or [Create] of lines 242–292. *)
Theorem empty_login_skips_login_stages user w :
  gits.Login user = "" →
  GitUserAsUser r (Some user) w
    = (stored ← listUsers r everyUser; resolveByEmail r stored user) w
  ∧ ∃ res w' calls,
      GitUserAsUser r (Some user) w = (res, w', CallList everyUser :: calls)
      ∧ (∀ opts, CallList opts ∉ calls)
      ∧ (∀ e, res = Err e → ambiguous e = true →
           ∃ email found, e = MoreThanOneWithEmail email found)
      ∧ (∀ u, res = Ok u →
           ∃ stored,
             List (JXClient r) (Namespace r) everyUser w = Ok stored
             ∧ (res, w', calls) = resolveByEmail r stored user w
             ∧ ∃ c, writes calls = [c]).
Proof.
  intros Hlogin.
  pose proof (GitUserAsUser_no_login user w Hlogin) as Hrun.
  split; [done|]. rewrite Hrun, run_listUsers.
  destruct (List _ _ _ _) as [stored|e0].
  2:{ eexists _, _, _. split; [done|]. split; [by intros ? ?%elem_of_nil|].
      split; [by intros ? [= <-]|done]. }
  destruct (resolveByEmail_writes r stored user w)
    as (res & w' & calls & Hemail & Hcases).
  rewrite Hemail. eexists _, _, _. split; [done|].
  destruct Hcases as [(-> & -> & email & found & ->)|[[u [-> Hu]]|[u [-> Hu]]]].
  - split; [by intros ? [=]%list_elem_of_singleton|]. split; [|done].
    intros e [= <-] _. eauto.
  - split.
    { intros opts Hin. apply elem_of_cons in Hin as [[=]|Hin].
      by apply list_elem_of_singleton in Hin. }
    split.
    + intros e -> He. apply (f_equal fst) in Hu. cbn in Hu. symmetry in Hu.
      apply updatedAndRead_not_ambiguous in Hu. congruence.
    + intros v ->. eexists. split; [done|]. split; [done|]. by eexists.
  - split.
    { intros opts Hin. apply elem_of_cons in Hin as [[=]|Hin].
      by apply list_elem_of_singleton in Hin. }
    split.
    + intros e -> He. revert Hu. unfold created.
      destruct (Create _ _ _ _) as [[?|e'] ?]; cbn; [done|]. by intros [= -> _].
    + intros v ->. eexists. split; [done|]. split; [done|]. by eexists.
Qed.

(** **** The scan of the accounts, lines 211–218 *)

Lemma account_match login (a : AccountReference) :
  Provider a = GitProviderKey r ∧ ID a = login ↔ a = accountOf r login.
Proof.
  destruct a as [provider id]. unfold accountOf. cbn.
  split; [by intros [-> ->]|by intros [= -> ->]].
Qed.

Lemma filter_accounts_none login (accounts : list AccountReference) :
  accountOf r login ∉ accounts →
  filter (λ a, Provider a = GitProviderKey r ∧ ID a = login) accounts = [].
Proof.
  induction accounts as [|a accounts IH]; [done|].
  intros Hnot. apply not_elem_of_cons in Hnot as [Hne Hnot].
  rewrite filter_cons_False; [by apply IH|].
  rewrite account_match. congruence.
Qed.


Lemma oneAccountPerProvider_noRepeatedAccount (u : User) :
  oneAccountPerProvider u → noRepeatedAccount u.
Proof. apply NoDup_fmap_1. Qed.

Lemma accountPossibles_none login (stored : list User) :
  Forall (λ u, ¬ hasAccount r login u) stored →
  accountPossibles (GitProviderKey r) login stored = [].
Proof.
  unfold accountPossibles.
  induction 1 as [|u stored Hu _ IH]; [done|].
  rewrite bind_cons, IH, (filter_accounts_none login); [done|exact Hu].
Qed.



(** C3, amended: when no record is listed under the label of the login, no
    stored record links to the account of the login and the provider does not
    know the login, [GitUserAsUser] calls [Create] once, for a record built
    from the fragment alone, makes no other write and answers what the store
    answers to that [Create]. The one account of that record is the login's
    at the provider; its login, name and email are the fragment's; the url
    and the avatar of the fragment are not taken over. *)
Theorem creation_fallback user stored w :
  gits.Login user ≠ "" →
  List (JXClient r) (Namespace r) (byLabel r (gits.Login user)) w = Ok [] →
  List (JXClient r) (Namespace r) everyUser w = Ok stored →
  Forall (λ u, ¬ hasAccount r (gits.Login user) u) stored →
  gits.UserInfo (GitProvider r) (gits.Login user) = None →
  ∃ new calls,
    GitUserAsUser r (Some user) w
      = ((created r new w).1, (created r new w).2, calls)
    ∧ writes calls = [CallCreate new]
    ∧ new = GitUserToUser r user
    ∧ Accounts (Spec new) = [accountOf r (gits.Login user)]
    ∧ Login (Spec new) = gits.Login user
    ∧ Name (Spec new) = gits.Name user
    ∧ Email (Spec new) = gits.Email user
    ∧ URL (Spec new) = ""
    ∧ AvatarURL (Spec new) = "".
Proof.
  intros Hlogin Hlabel Hall Hnone Hinfo.
  exists (GitUserToUser r user),
    [CallList (byLabel r (gits.Login user)); CallList everyUser;
     CallUserInfo (gits.Login user); CallCreate (GitUserToUser r user)].
  split; [|by repeat split].
  unfold GitUserAsUser. destruct (decide _) as [_|]; [|done].
  fold (byLabel r (gits.Login user)). rewrite run_listUsers, Hlabel.
  unfold resolveByAccount. fold (@everyUser). rewrite run_listUsers, Hall.
  destruct (decide _) as [_|]; [|done].
  rewrite accountPossibles_none by done.
  by rewrite resolveByEmail_not_found.
Qed.

End Cascade.

(** *** [UpdateUserFromPRAuthor] *)

Section Backfill.

Context {W E : Type} (r : GitUserResolver W E).

Lemma commitAuthorEmail_none login commits :
  noAuthor login commits → commitAuthorEmail login commits = None.
Proof.
  induction 1 as [|commit commits Hcommit _ IH]; [done|].
  cbn. destruct (gits.Author commit) as [author|]; [|done].
  destruct (decide _) as [->|_]; [|done].
  by destruct (Hcommit author).
Qed.

Lemma commitAuthorEmail_first login before commit matched after :
  noAuthor login before →
  gits.Author commit = Some matched →
  gits.Login matched = login →
  commitAuthorEmail login (before ++ commit :: after) = Some (gits.Email matched).
Proof.
  intros Hbefore Hauthor Hlogin.
  induction Hbefore as [|c before Hc _ IH]; cbn.
  - rewrite Hauthor. by destruct (decide _).
  - destruct (gits.Author c) as [author|]; [|done].
    destruct (decide _) as [->|_]; [|done].
    by destruct (Hc author).
Qed.

Lemma accountLogin_first providerKey before a after :
  Forall (λ b, Provider b ≠ providerKey) before →
  Provider a = providerKey →
  accountLogin providerKey (before ++ a :: after) = ID a.
Proof.
  intros Hbefore Ha. induction Hbefore as [|b before Hb _ IH]; cbn.
  - by destruct (decide _).
  - by destruct (decide _).
Qed.

Lemma accountLogin_decompose providerKey accounts :
  accountLogin providerKey accounts ≠ "" →
  ∃ before a after,
    accounts = before ++ a :: after
    ∧ Forall (λ b, Provider b ≠ providerKey) before
    ∧ Provider a = providerKey
    ∧ ID a = accountLogin providerKey accounts.
Proof.
  induction accounts as [|b accounts IH]; cbn; [done|].
  destruct (decide _) as [Hb|Hb]; intros Hlogin.
  - by exists [], b, accounts.
  - destruct (IH Hlogin) as (before & a & after & -> & ? & ? & ?).
    exists (b :: before), a, after. split; [done|]. split; [|done].
    by constructor.
Qed.

(** The login the commits are compared with is the login of the record. *)
Lemma authorLogin_loginOf (author : User) :
  loginOf r author (authorLogin r author).
Proof.
  unfold authorLogin, GitUserLogin.
  destruct (decide _) as [Hempty|Hlogin].
  - apply login_of_record. intros before a after Haccounts Hbefore Ha.
    rewrite Haccounts in Hempty. by rewrite accountLogin_first in Hempty.
  - destruct (accountLogin_decompose _ _ Hlogin)
      as (before & a & after & Haccounts & ? & ? & Hid).
    rewrite <-Hid in *. by eapply login_of_account.
Qed.

Lemma loginOf_authorLogin (author : User) login :
  loginOf r author login → login = authorLogin r author.
Proof.
  unfold authorLogin, GitUserLogin.
  intros [before a after Haccounts Hbefore Ha Hid|Hfirst].
  - rewrite Haccounts, accountLogin_first by done. by destruct (decide _).
  - destruct (decide _) as [|Hlogin]; [done|].
    destruct (accountLogin_decompose _ _ Hlogin)
      as (before & a & after & Haccounts & ? & ? & Hid).
    destruct Hlogin. rewrite <-Hid. by eapply Hfirst.
Qed.

(** C9: for a record and a pull request that are not [nil], the commits are
    scanned in order for an author whose login is the record's for the
    provider: the [ID] of the record's first account of the provider or,
    when there is none or it is empty, the login of the record itself. At
    the first such commit the email of the record is set to that author's
    and [Update] is called once, for that record; with no such commit, and
    also with no pull request, the record is answered as it is and the store
    is not called. *)
Theorem backfill_email_from_commits (author : User)
    (pullRequest : gits.GitPullRequest) (commits : list gits.GitCommit) (w : W) :
  (∃ login, loginOf r author login)
  ∧ ∀ login, loginOf r author login →
      (∀ before commit matched after,
         commits = before ++ commit :: after →
         noAuthor login before →
         gits.Author commit = Some matched →
         gits.Login matched = login →
         ∃ backfilled,
           UpdateUserFromPRAuthor r (Some author) (Some pullRequest) commits w
             = (notNil (updated r backfilled w).1, (updated r backfilled w).2,
                [CallUpdate backfilled])
           ∧ Email (Spec backfilled) = gits.Email matched
           ∧ backfilled = setEmail (gits.Email matched) author)
      ∧ (noAuthor login commits →
           UpdateUserFromPRAuthor r (Some author) (Some pullRequest) commits w
             = (Ok (Some author), w, []))
      ∧ UpdateUserFromPRAuthor r (Some author) None commits w
          = (Ok (Some author), w, []).
Proof.
  split; [eexists; apply authorLogin_loginOf|].
  intros login ->%loginOf_authorLogin.
  split; [|split; [|done]].
  - intros before commit matched after -> Hbefore Hauthor Hlogin.
    exists (setEmail (gits.Email matched) author). split; [|done].
    unfold UpdateUserFromPRAuthor.
    rewrite (commitAuthorEmail_first _ _ _ matched) by done.
    unfold mbind, M_bind, bind. rewrite run_updateUser.
    by destruct (updated _ _ _).1.
  - intros Hnone. unfold UpdateUserFromPRAuthor.
    by rewrite commitAuthorEmail_none.
Qed.

End Backfill.

(** ** The properties at work on a store held in memory *)

Section Examples.

Import memstore.

(** C1 as claimed fails: the one stored record has no email, the provider
    knows no email of the login either, and the record is taken for the
    user's – it is updated with the account and the label, and answered. *)
Lemma empty_emails_match :
  Email (Spec (user "ann" "" [] None)) = ""
  ∧ gits.Email (gitUser "alice" "") = ""
  ∧ emailPossibles (Some (gitUser "alice" "")) [user "ann" "" [] None]
      = [user "ann" "" [] None]
  ∧ GitUserAsUser (resolver "github" [gitUser "alice" ""])
      (Some (gitUser "alice" "")) [user "ann" "" [] None]
    = (Ok (user "ann" "" (linked "alice") (labelled "alice")),
       [user "ann" "" (linked "alice") (labelled "alice")],
       [bySelector "jenkins.io/git-github-userid=alice"; bySelector "";
        CallUserInfo "alice";
        CallUpdate (user "ann" "" (linked "alice") (labelled "alice"))]).
Proof. repeat split; vm_compute; reflexivity. Qed.

(** C3 as claimed fails: the record created for a fragment with a url has no
    url, so its fields are not the fragment's. *)
Lemma created_record_has_no_url :
  ∃ new,
    GitUserAsUser github (Some alice) []
      = (Ok new, [new],
         [bySelector "jenkins.io/git-github-userid=alice"; bySelector "";
          CallUserInfo "alice"; CallCreate new])
    ∧ URL (Spec new) = ""
    ∧ URL (Spec new) ≠ gits.URL alice.
Proof. eexists. split; [vm_compute; reflexivity|]. by split. Qed.

(** C6 at work: one record carries the label of [alice]. *)
Lemma fast_path_idempotent_witness :
  GitUserAsUser github (Some alice) [user "al" "" [] (labelled "alice")]
    = (Ok (user "al" "" [] (labelled "alice")),
       [user "al" "" [] (labelled "alice")],
       [CallList (byLabel github (gits.Login alice))])
  ∧ writes [CallList (byLabel github (gits.Login alice))] = []
  ∧ ∃ calls,
      (first ← GitUserAsUser github (Some alice);
       second ← GitUserAsUser github (Some alice);
       mret (first, second)) [user "al" "" [] (labelled "alice")]
      = (Ok (user "al" "" [] (labelled "alice"),
             user "al" "" [] (labelled "alice")),
         [user "al" "" [] (labelled "alice")], calls)
      ∧ writes calls = [].
Proof.
  apply (fast_path_idempotent github alice
           (user "al" "" [] (labelled "alice"))
           [user "al" "" [] (labelled "alice")]).
  - discriminate.
  - vm_compute; reflexivity.
Defined.

(** C2 at work: two records have the email the provider knows of [alice]. *)
Lemma ambiguity_is_an_error_witness :
  ∃ e calls,
    GitUserAsUser (resolver "github" [alice]) (Some alice)
        [user "al" "alice@co.io" [] None; user "ally" "alice@co.io" [] None]
      = (Err e,
         [user "al" "alice@co.io" [] None; user "ally" "alice@co.io" [] None],
         calls)
    ∧ ambiguous e = true
    ∧ writes calls = [].
Proof.
  apply (ambiguity_is_an_error (resolver "github" [alice]) alice).
  apply (several_by_email _ _ _
           [user "al" "alice@co.io" [] None; user "ally" "alice@co.io" [] None]
           alice).
  - right. split; vm_compute; reflexivity.
  - vm_compute; reflexivity.
  - vm_compute; reflexivity.
  - vm_compute; lia.
Defined.


(** What the store held in memory makes of the run of C5. *)
Lemma index_self_healing_in_memory :
  GitUserAsUser github (Some alice)
    [user "bob" "" (linked "bob") None; user "al" "" (linked "alice") None]
  = (Ok (user "al" "" (linked "alice") (labelled "alice")),
     [user "bob" "" (linked "bob") None;
      user "al" "" (linked "alice") (labelled "alice")],
     [bySelector "jenkins.io/git-github-userid=alice"; bySelector "";
      CallUpdate (user "al" "" (linked "alice") (labelled "alice"))]).
Proof. vm_compute; reflexivity. Qed.

(** C3 at work: the store holds [bob] only and the provider knows nobody. *)
Lemma creation_fallback_witness :
  ∃ new calls,
    GitUserAsUser github (Some alice) [user "bob" "" (linked "bob") None]
      = ((created github new [user "bob" "" (linked "bob") None]).1,
         (created github new [user "bob" "" (linked "bob") None]).2, calls)
    ∧ writes calls = [CallCreate new]
    ∧ new = GitUserToUser github alice
    ∧ Accounts (Spec new) = [accountOf github (gits.Login alice)]
    ∧ Login (Spec new) = gits.Login alice
    ∧ Name (Spec new) = gits.Name alice
    ∧ Email (Spec new) = gits.Email alice
    ∧ URL (Spec new) = ""
    ∧ AvatarURL (Spec new) = "".
Proof.
  apply (creation_fallback github alice [user "bob" "" (linked "bob") None]).
  - discriminate.
  - vm_compute; reflexivity.
  - vm_compute; reflexivity.
  - repeat constructor. by intros [[=]|[]%elem_of_nil]%elem_of_cons.
  - vm_compute; reflexivity.
Defined.

(** C10 at work: a fragment read off a commit signature has no login. *)
Lemma empty_login_skips_login_stages_witness :
  GitUserAsUser github (Some (gitUser "" "alice@co.io"))
      [user "bob" "" (linked "") None]
    = (stored ← listUsers github everyUser;
       resolveByEmail github stored (gitUser "" "alice@co.io"))
        [user "bob" "" (linked "") None]
  ∧ ∃ res w' calls,
      GitUserAsUser github (Some (gitUser "" "alice@co.io"))
          [user "bob" "" (linked "") None]
        = (res, w', CallList everyUser :: calls)
      ∧ (∀ opts, CallList opts ∉ calls)
      ∧ (∀ e, res = Err e → ambiguous e = true →
           ∃ email found, e = MoreThanOneWithEmail email found)
      ∧ (∀ u, res = Ok u →
           ∃ stored,
             List (JXClient github) (Namespace github) everyUser
               [user "bob" "" (linked "") None] = Ok stored
             ∧ (res, w', calls)
               = resolveByEmail github stored (gitUser "" "alice@co.io")
                   [user "bob" "" (linked "") None]
             ∧ ∃ c, writes calls = [c]).
Proof.
  apply (empty_login_skips_login_stages github (gitUser "" "alice@co.io")
           [user "bob" "" (linked "") None]).
  reflexivity.
Defined.

(** The run of C10 in full: [bob], whose account at the provider has the
    empty login, is not taken for the user; a record is created. *)
Lemma empty_login_in_memory :
  GitUserAsUser github (Some (gitUser "" "alice@co.io"))
    [user "bob" "" (linked "") None]
  = (Ok (GitUserToUser github (gitUser "" "alice@co.io")),
     [user "bob" "" (linked "") None;
      GitUserToUser github (gitUser "" "alice@co.io")],
     [bySelector ""; CallUserInfo "";
      CallCreate (GitUserToUser github (gitUser "" "alice@co.io"))]).
Proof. vm_compute; reflexivity. Qed.


(** [UpdateUserFromPRAuthor] at work: the commits of nobody and of [bob] are
    passed over, the first commit of [alice] gives the email, and a later
    one with another email is not looked at. *)
Lemma backfill_in_memory :
  UpdateUserFromPRAuthor github
    (Some (user "al" "" (linked "alice") None)) (Some pullRequest)
    [commitBy None; commitBy (Some (gitUser "bob" "bob@co.io"));
     commitBy (Some alice); commitBy (Some (gitUser "alice" "other@co.io"))]
    [user "al" "" (linked "alice") None]
  = (Ok (Some (user "al" "alice@co.io" (linked "alice") None)),
     [user "al" "alice@co.io" (linked "alice") None],
     [CallUpdate (user "al" "alice@co.io" (linked "alice") None)]).
Proof. vm_compute; reflexivity. Qed.

End Examples.

(** ** Further properties of the package [users] *)

(** *** [mergeGitUsers] as an operation *)

(** X1: [mergeGitUsers] is associative, with [nil] as its unit on both sides:
    a chain of fragments merges to the same fragment however it is grouped. *)
Theorem mergeGitUsers_assoc (user1 user2 user3 : option gits.GitUser) :
  mergeGitUsers user1 (mergeGitUsers user2 user3)
    = mergeGitUsers (mergeGitUsers user1 user2) user3
  ∧ mergeGitUsers None user1 = user1
  ∧ mergeGitUsers user1 None = user1.
Proof.
  split; [|by destruct user1].
  destruct user1 as [u1|], user2 as [u2|], user3 as [u3|]; try done.
  cbn. do 2 f_equal; repeat case_decide; congruence.
Qed.

(** X2: merging a fragment into a merge it already is part of changes
    nothing, on either side; in particular a fragment merged with itself is
    that fragment. *)
Theorem mergeGitUsers_absorbs (user1 user2 : option gits.GitUser) :
  mergeGitUsers user1 (mergeGitUsers user1 user2) = mergeGitUsers user1 user2
  ∧ mergeGitUsers (mergeGitUsers user1 user2) user2 = mergeGitUsers user1 user2
  ∧ mergeGitUsers user1 user1 = user1.
Proof.
  destruct user1 as [[]|], user2 as [[]|]; cbn; repeat split;
    do 2 f_equal; repeat case_decide; congruence.
Qed.

(** *** Provider keys and accounts *)

Lemma length_append (s1 s2 : string) :
  String.length (s1 +:+ s2) = String.length s1 + String.length s2.
Proof. induction s1 as [|a s1 IH]; simpl; [done|]. by f_equal. Qed.

Lemma append_inj_r (s1 s2 t : string) : s1 +:+ t = s2 +:+ t → s1 = s2.
Proof.
  revert s2. induction s1 as [|a s1 IH]; intros [|b s2] Heq.
  - done.
  - apply (f_equal String.length) in Heq. simpl in Heq.
    rewrite !length_append in Heq. simpl in Heq. lia.
  - apply (f_equal String.length) in Heq. simpl in Heq.
    rewrite !length_append in Heq. simpl in Heq. lia.
  - simpl in Heq. injection Heq as -> Heq. f_equal. by apply IH.
Qed.

(** X3: the provider key tells the kinds of git providers apart: two
    resolvers have the same key exactly when their providers are of the same
    kind. *)
Theorem GitProviderKey_inj {W1 E1 W2 E2 : Type}
    (r1 : GitUserResolver W1 E1) (r2 : GitUserResolver W2 E2) :
  GitProviderKey r1 = GitProviderKey r2
  ↔ gits.Kind (GitProvider r1) = gits.Kind (GitProvider r2).
Proof.
  unfold GitProviderKey. split; [|by intros ->].
  intros Heq. apply (inj (String.append "jenkins.io/git-")) in Heq.
  by apply append_inj_r in Heq.
Qed.

Section Accounts.

Context {W E : Type} (r : GitUserResolver W E).

Lemma accountLogin_elem providerKey accounts :
  accountLogin providerKey accounts ≠ "" →
  {| Provider := providerKey; ID := accountLogin providerKey accounts |} ∈ accounts.
Proof.
  induction accounts as [|[provider id] accounts IH]; cbn; [done|].
  destruct (decide _) as [<-|_]; intros Hlogin.
  - apply list_elem_of_here.
  - apply list_elem_of_further. by apply IH.
Qed.

Lemma accountLogin_none providerKey accounts :
  (∀ a, a ∈ accounts → Provider a ≠ providerKey) →
  accountLogin providerKey accounts = "".
Proof.
  induction accounts as [|a accounts IH]; cbn; [done|]. intros Hnone.
  destruct (decide _) as [Ha|_].
  - destruct (Hnone a); [apply list_elem_of_here|done].
  - apply IH. intros b Hb. apply Hnone. by apply list_elem_of_further.
Qed.

Lemma accountLogin_unique providerKey login accounts :
  NoDup (Provider <$> accounts) →
  {| Provider := providerKey; ID := login |} ∈ accounts →
  accountLogin providerKey accounts = login.
Proof.
  induction accounts as [|a accounts IH]; [by intros _ ?%elem_of_nil|].
  rewrite fmap_cons, NoDup_cons. intros [Hfresh Hnodup] Hin. cbn.
  apply elem_of_cons in Hin as [<-|Hin]; cbn.
  - by destruct (decide _).
  - destruct (decide _) as [Ha|_]; [|by apply IH].
    destruct Hfresh. rewrite Ha.
    by apply (list_elem_of_fmap_2 Provider) in Hin.
Qed.

(** X4: a non-empty [GitUserLogin] is the login of an account the record has
    for the provider; it is empty for a record with no account of the
    provider; and for a record with at most one account per provider it is
    the login of the account the record has. *)
Theorem GitUserLogin_account (u : User) :
  (GitUserLogin r u ≠ "" → hasAccount r (GitUserLogin r u) u)
  ∧ ((∀ a, a ∈ Accounts (Spec u) → Provider a ≠ GitProviderKey r) →
       GitUserLogin r u = "")
  ∧ (∀ login, oneAccountPerProvider u → hasAccount r login u →
       GitUserLogin r u = login).
Proof.
  split; [|split].
  - apply accountLogin_elem.
  - apply accountLogin_none.
  - intros login. apply accountLogin_unique.
Qed.

(** X5: the candidates of the scan of the accounts are the stored records
    that have the account of the login at the provider, and no others. *)
Theorem accountPossibles_elem (login : string) (stored : list User) (u : User) :
  u ∈ accountPossibles (GitProviderKey r) login stored
  ↔ u ∈ stored ∧ hasAccount r login u.
Proof.
  unfold accountPossibles, hasAccount. rewrite list_elem_of_bind. split.
  - intros (v & Hin & Hv). apply list_elem_of_bind in Hin as (a & Hu & Ha).
    apply list_elem_of_singleton in Hu as ->.
    apply list_elem_of_filter in Ha as [Hmatch Ha].
    apply account_match in Hmatch as <-. done.
  - intros [Hu Ha]. exists u. split; [|done].
    apply list_elem_of_bind. exists (accountOf r login).
    split; [by apply list_elem_of_singleton|].
    apply list_elem_of_filter. split; [|done]. by apply account_match.
Qed.

End Accounts.

(** *** Every run of [GitUserAsUser] *)

Section Runs.

Context {W E : Type} (r : GitUserResolver W E).

Implicit Types (user : gits.GitUser) (w : W) (calls : list call).

(** The stages after the lists, by what the provider and the emails give. *)
Lemma resolveByEmail_resolved user w before stored :
  listedByLabel r user w before →
  List (JXClient r) (Namespace r) everyUser w = Ok stored →
  (gits.Login user ≠ "" →
   accountPossibles (GitProviderKey r) (gits.Login user) stored = []) →
  ∃ res w' calls,
    resolveByEmail r stored user w = (res, w', calls)
    ∧ Resolved r user w res w' (before ++ CallList everyUser :: calls).
Proof.
  intros Hbefore Hall Hnone. unfold resolveByEmail. rewrite run_userInfo.
  destruct (gits.UserInfo _ _) as [gitUser|] eqn:Hinfo.
  - destruct (emailPossibles (Some gitUser) stored) as [|u1 [|u2 l]] eqn:Hemail.
    + destruct (mergeGitUsers_Some_r (Some gitUser) user) as [merged Hmerged].
      rewrite Hmerged, run_createUser. eexists _, _, _. split; [done|].
      eapply no_candidate; rewrite ?Hinfo; done.
    + rewrite run_updateUserAndLog. eexists _, _, _. split; [done|].
      by eapply (email_hit r user w before stored gitUser u1).
    + eexists _, _, _. split; [done|]. rewrite <-Hemail.
      eapply (email_several r user w before stored gitUser); try done.
      rewrite Hemail. cbn. lia.
  - cbn. rewrite run_createUser. eexists _, _, _. split; [done|].
    eapply no_candidate; rewrite ?Hinfo; done.
Qed.

Lemma resolveByAccount_resolved user w before :
  listedByLabel r user w before →
  ∃ res w' calls,
    resolveByAccount r user w = (res, w', calls)
    ∧ Resolved r user w res w' (before ++ calls).
Proof.
  intros Hbefore. unfold resolveByAccount. fold (@everyUser).
  rewrite run_listUsers.
  destruct (List _ _ _ _) as [stored|e] eqn:Hall.
  2:{ eexists _, _, _. split; [done|]. by apply list_fails. }
  destruct (decide _) as [Hlogin|Hlogin].
  - destruct (accountPossibles _ _ stored) as [|u1 [|u2 l]] eqn:Haccount.
    + destruct (resolveByEmail_resolved user w before stored)
        as (res & w' & calls & -> & Hres); [done..|].
      by eexists _, _, _.
    + rewrite run_updateUser. eexists _, _, _. split; [done|].
      by eapply (account_hit r user w before stored u1).
    + eexists _, _, _. split; [done|]. rewrite <-Haccount.
      eapply (account_several r user w before stored); try done.
      rewrite Haccount. cbn. lia.
  - destruct (resolveByEmail_resolved user w before stored)
      as (res & w' & calls & -> & Hres); [done..|].
    by eexists _, _, _.
Qed.

(** Every run on a git user is one of the runs of [Resolved]. *)
Lemma GitUserAsUser_resolved user w :
  ∃ res w' calls,
    GitUserAsUser r (Some user) w = (res, w', calls)
    ∧ Resolved r user w res w' calls.
Proof.
  unfold GitUserAsUser. destruct (decide _) as [Hlogin|Hlogin].
  - fold (byLabel r (gits.Login user)). rewrite run_listUsers.
    destruct (List _ _ _ _) as [[|u1 [|u2 l]]|e] eqn:Hlabel.
    + destruct (resolveByAccount_resolved user w
                  [CallList (byLabel r (gits.Login user))])
        as (res & w' & calls & -> & Hres); [right; done|].
      by eexists _, _, _.
    + eexists _, _, _. split; [done|]. by apply label_hit.
    + eexists _, _, _. split; [done|].
      apply label_several; [done..|]. cbn. lia.
    + eexists _, _, _. split; [done|]. by apply label_fails.
  - destruct (resolveByAccount_resolved user w [])
      as (res & w' & calls & -> & Hres).
    { left. split; [|done]. by destruct (decide (gits.Login user = "")) as [|?]; [|destruct Hlogin]. }
    by eexists _, _, _.
Qed.

End Runs.

(** *** What [GitUserAsUser] calls, and when *)

Section Calls.

Context {W E : Type} (r : GitUserResolver W E).

Implicit Types (user : gits.GitUser) (w : W) (calls : list call).

Local Ltac no_such_call H :=
  repeat (apply elem_of_cons in H as [H|H]; [try discriminate H|]);
  try (by apply elem_of_nil in H).

Lemma accountPossibles_stored login (stored : list User) u :
  u ∈ accountPossibles (GitProviderKey r) login stored → u ∈ stored.
Proof.
  unfold accountPossibles. rewrite list_elem_of_bind.
  intros (v & Hin & Hv). apply list_elem_of_bind in Hin as (a & Hu & _).
  by apply list_elem_of_singleton in Hu as ->.
Qed.

Lemma emailPossibles_stored gitUser (stored : list User) u :
  u ∈ emailPossibles gitUser stored → u ∈ stored.
Proof.
  destruct gitUser as [gitUser|]; cbn; [|by intros ?%elem_of_nil].
  by intros [_ ?]%list_elem_of_filter.
Qed.

Lemma emailPossibles_one gitUser (before after : list User) found :
  Forall (λ u, Email (Spec u) ≠ gits.Email gitUser) before →
  Forall (λ u, Email (Spec u) ≠ gits.Email gitUser) after →
  Email (Spec found) = gits.Email gitUser →
  emailPossibles (Some gitUser) (before ++ found :: after) = [found].
Proof.
  intros Hbefore Hafter Hfound. cbn.
  rewrite filter_app, filter_cons_True by done.
  assert (∀ l, Forall (λ u, Email (Spec u) ≠ gits.Email gitUser) l →
               filter (λ u, Email (Spec u) = gits.Email gitUser) l = []) as Hnone.
  { induction 1 as [|u l Hu _ IH]; [done|]. by rewrite filter_cons_False. }
  by rewrite !Hnone.
Qed.

Lemma emailPossibles_none gitUser (stored : list User) :
  Forall (λ u, Email (Spec u) ≠ gits.Email gitUser) stored →
  emailPossibles (Some gitUser) stored = [].
Proof.
  cbn. induction 1 as [|u l Hu _ IH]; [done|]. by rewrite filter_cons_False.
Qed.

(** X6: when the stage of the provider lookup is reached, the provider knows
    the login and exactly one stored record has the email the provider
    gives, [GitUserAsUser] calls [Update] once and makes no other write: for
    that record with one account added at the end, the login the provider
    gives at the provider of [r], and with the label set to the login of the
    fragment; everything else of the record is kept. The answer is the
    record when the store answers it, the error of the store when it
    answers one beside a record, and the fault of reading through [nil]
    (lines 278–280) when it answers an error beside [nil]. *)
Theorem email_correlation_links user gitUser found before after w :
  gits.Login user = ""
  ∨ (List (JXClient r) (Namespace r) (byLabel r (gits.Login user)) w = Ok []
     ∧ accountPossibles (GitProviderKey r) (gits.Login user)
         (before ++ found :: after) = []) →
  List (JXClient r) (Namespace r) everyUser w = Ok (before ++ found :: after) →
  gits.UserInfo (GitProvider r) (gits.Login user) = Some gitUser →
  Forall (λ u, Email (Spec u) ≠ gits.Email gitUser) before →
  Forall (λ u, Email (Spec u) ≠ gits.Email gitUser) after →
  Email (Spec found) = gits.Email gitUser →
  ∃ linked labels calls,
    writes calls = [CallUpdate linked]
    ∧ (∀ answered w', Update (JXClient r) (Namespace r) linked w
                       = (Updated answered, w') →
         GitUserAsUser r (Some user) w = (Ok answered, w', calls))
    ∧ (∀ returned e w', Update (JXClient r) (Namespace r) linked w
                         = (NotUpdated (Some returned) e, w') →
         GitUserAsUser r (Some user) w = (Err (ClientError e), w', calls))
    ∧ (∀ e w', Update (JXClient r) (Namespace r) linked w
                = (NotUpdated None e, w') →
         GitUserAsUser r (Some user) w = (Err NilDereference, w', calls))
    ∧ sameRecord linked found
    ∧ Accounts (Spec linked)
        = Accounts (Spec found) ++ [accountOf r (gits.Login gitUser)]
    ∧ Labels linked = Some labels
    ∧ labels !! GitProviderKey r = Some (gits.Login user)
    ∧ ∀ k, k ≠ GitProviderKey r → labels !! k = default ∅ (Labels found) !! k.
Proof.
  intros Hreach Hall Hinfo Hbefore Hafter Hfound.
  pose proof (emailPossibles_one gitUser before after found Hbefore Hafter Hfound)
    as Hone.
  assert (resolveByAccount r user w
          = ((updatedAndRead r (linkedRecord r user gitUser found) w).1,
             (updatedAndRead r (linkedRecord r user gitUser found) w).2,
             [CallList everyUser; CallUserInfo (gits.Login user);
              CallUpdate (linkedRecord r user gitUser found)])) as Hrun.
  { assert (resolveByEmail r (before ++ found :: after) user w
            = ((updatedAndRead r (linkedRecord r user gitUser found) w).1,
               (updatedAndRead r (linkedRecord r user gitUser found) w).2,
               [CallUserInfo (gits.Login user);
                CallUpdate (linkedRecord r user gitUser found)])) as Hemail.
    { unfold resolveByEmail. rewrite run_userInfo, Hinfo, Hone.
      by rewrite run_updateUserAndLog. }
    unfold resolveByAccount. fold (@everyUser). rewrite run_listUsers, Hall.
    destruct (decide _) as [Hlogin|Hlogin].
    - destruct Hreach as [?|[_ ->]]; [done|]. by rewrite Hemail.
    - by rewrite Hemail. }
  exists (linkedRecord r user gitUser found),
    (<[GitProviderKey r := gits.Login user]> (default ∅ (Labels found))).
  assert (∀ k, k ≠ GitProviderKey r →
            <[GitProviderKey r := gits.Login user]> (default ∅ (Labels found)) !! k
            = default ∅ (Labels found) !! k) as Hother.
  { intros k Hk. by apply lookup_insert_ne. }
  assert (∃ calls,
    GitUserAsUser r (Some user) w
    = ((updatedAndRead r (linkedRecord r user gitUser found) w).1,
       (updatedAndRead r (linkedRecord r user gitUser found) w).2, calls)
    ∧ writes calls = [CallUpdate (linkedRecord r user gitUser found)])
    as (calls & Hcalls & Hwrites).
  { unfold GitUserAsUser. destruct (decide _) as [Hlogin|Hlogin].
    - destruct Hreach as [?|[Hlabel _]]; [done|].
      fold (byLabel r (gits.Login user)). rewrite run_listUsers, Hlabel, Hrun.
      by eexists.
    - rewrite Hrun. by eexists. }
  exists calls. split; [done|].
  split; [|split; [|split]];
    try (intros; rewrite Hcalls; unfold updatedAndRead;
         by match goal with H : Update _ _ _ _ = _ |- _ => rewrite H end).
  split; [done|]. split; [done|]. split; [done|].
  split; [apply lookup_insert_eq|done].
Qed.

(** X7: when the stage of the provider lookup is reached, the provider knows
    the login and no stored record has the email the provider gives,
    [GitUserAsUser] calls [Create] once and makes no other write: for the
    record converted from the merge of the two fragments, in which every
    field is the provider's unless that is empty. *)
Theorem creation_prefers_provider user gitUser stored w :
  gits.Login user = ""
  ∨ (List (JXClient r) (Namespace r) (byLabel r (gits.Login user)) w = Ok []
     ∧ accountPossibles (GitProviderKey r) (gits.Login user) stored = []) →
  List (JXClient r) (Namespace r) everyUser w = Ok stored →
  gits.UserInfo (GitProvider r) (gits.Login user) = Some gitUser →
  Forall (λ u, Email (Spec u) ≠ gits.Email gitUser) stored →
  ∃ merged calls,
    GitUserAsUser r (Some user) w
      = ((created r (GitUserToUser r merged) w).1,
         (created r (GitUserToUser r merged) w).2, calls)
    ∧ writes calls = [CallCreate (GitUserToUser r merged)]
    ∧ gits.Login merged = preferred (gits.Login gitUser) (gits.Login user)
    ∧ gits.Name merged = preferred (gits.Name gitUser) (gits.Name user)
    ∧ gits.Email merged = preferred (gits.Email gitUser) (gits.Email user)
    ∧ gits.URL merged = preferred (gits.URL gitUser) (gits.URL user)
    ∧ gits.AvatarURL merged
        = preferred (gits.AvatarURL gitUser) (gits.AvatarURL user).
Proof.
  intros Hreach Hall Hinfo Hnone.
  pose proof (emailPossibles_none gitUser stored Hnone) as Hemail.
  destruct (mergeGitUsers_Some_r (Some gitUser) user) as [merged Hmerged].
  assert (resolveByAccount r user w
          = ((created r (GitUserToUser r merged) w).1,
             (created r (GitUserToUser r merged) w).2,
             [CallList everyUser; CallUserInfo (gits.Login user);
              CallCreate (GitUserToUser r merged)])) as Hrun.
  { assert (resolveByEmail r stored user w
            = ((created r (GitUserToUser r merged) w).1,
               (created r (GitUserToUser r merged) w).2,
               [CallUserInfo (gits.Login user);
                CallCreate (GitUserToUser r merged)])) as Hcreate.
    { unfold resolveByEmail. rewrite run_userInfo, Hinfo, Hemail, Hmerged.
      by rewrite run_createUser. }
    unfold resolveByAccount. fold (@everyUser). rewrite run_listUsers, Hall.
    destruct (decide _) as [Hlogin|Hlogin].
    - destruct Hreach as [?|[_ ->]]; [done|]. by rewrite Hcreate.
    - by rewrite Hcreate. }
  assert (gits.Login merged = preferred (gits.Login gitUser) (gits.Login user)
    ∧ gits.Name merged = preferred (gits.Name gitUser) (gits.Name user)
    ∧ gits.Email merged = preferred (gits.Email gitUser) (gits.Email user)
    ∧ gits.URL merged = preferred (gits.URL gitUser) (gits.URL user)
    ∧ gits.AvatarURL merged
        = preferred (gits.AvatarURL gitUser) (gits.AvatarURL user)) as Hfields.
  { cbn in Hmerged. injection Hmerged as <-. cbn. by rewrite !merge_field. }
  exists merged. unfold GitUserAsUser. destruct (decide _) as [Hlogin|Hlogin].
  - destruct Hreach as [?|[Hlabel _]]; [done|].
    fold (byLabel r (gits.Login user)). rewrite run_listUsers, Hlabel, Hrun.
    eexists. split; [done|]. by split.
  - rewrite Hrun. eexists. split; [done|]. by split.
Qed.

(** X8: a list of the store that fails ends the resolution with the error of
    the client: the store is left as it was, nothing is written and no user
    is looked up at the provider ([UserInfo] is not called). *)
Theorem failing_list_ends_resolution user e w :
  (gits.Login user ≠ ""
   ∧ List (JXClient r) (Namespace r) (byLabel r (gits.Login user)) w = Err e)
  ∨ ((gits.Login user = ""
      ∨ List (JXClient r) (Namespace r) (byLabel r (gits.Login user)) w = Ok [])
     ∧ List (JXClient r) (Namespace r) everyUser w = Err e) →
  ∃ calls,
    GitUserAsUser r (Some user) w = (Err (ClientError e), w, calls)
    ∧ writes calls = []
    ∧ ∀ login, CallUserInfo login ∉ calls.
Proof.
  assert (List (JXClient r) (Namespace r) everyUser w = Err e →
          resolveByAccount r user w
          = (Err (ClientError e), w, [CallList everyUser])) as Hlist.
  { intros Hall. unfold resolveByAccount. fold (@everyUser).
    by rewrite run_listUsers, Hall. }
  unfold GitUserAsUser.
  intros [[Hlogin Hlabel]|[Hreach Hall]]; destruct (decide _) as [Hl|Hl].
  - fold (byLabel r (gits.Login user)). rewrite run_listUsers, Hlabel.
    eexists. split; [done|]. split; [done|]. intros login Hin. no_such_call Hin.
  - done.
  - fold (byLabel r (gits.Login user)). rewrite run_listUsers.
    destruct Hreach as [?|Hlabel]; [done|]. rewrite Hlabel, (Hlist Hall).
    eexists. split; [done|]. split; [done|]. intros login Hin. no_such_call Hin.
  - rewrite (Hlist Hall).
    eexists. split; [done|]. split; [done|]. intros login Hin. no_such_call Hin.
Qed.

End Calls.

(** *** What [GitUserAsUser] never does *)

Section Frame.

Context {W E : Type} (r : GitUserResolver W E).

Implicit Types (user : gits.GitUser) (w : W) (calls : list call).

Local Ltac which_call H :=
  cbn in H;
  repeat (apply elem_of_cons in H as [H|H]; [try discriminate H|]);
  try (by apply elem_of_nil in H).

Local Ltac before_lists H :=
  destruct H as [[? ->]|(? & ? & ->)].

(** X9: [GitUserAsUser] creates a record only when no stage found a
    candidate: both lists of the store succeeded, no record was listed under
    the label or has the account of the login (with a login), and no record
    has the email the provider gives. The record is then the one converted
    from the merge of the provider's fragment with the given one, and the
    answer is the store's. In particular no error is followed by a [Create]. *)
Theorem create_only_without_candidate (user : option gits.GitUser) w :
  ∃ res w' calls,
    GitUserAsUser r user w = (res, w', calls)
    ∧ ∀ new, CallCreate new ∈ calls →
        ∃ fragment stored merged,
          user = Some fragment
          ∧ (gits.Login fragment ≠ "" →
               List (JXClient r) (Namespace r)
                 (byLabel r (gits.Login fragment)) w = Ok []
               ∧ accountPossibles (GitProviderKey r) (gits.Login fragment)
                   stored = [])
          ∧ List (JXClient r) (Namespace r) everyUser w = Ok stored
          ∧ emailPossibles
              (gits.UserInfo (GitProvider r) (gits.Login fragment)) stored = []
          ∧ mergeGitUsers
              (gits.UserInfo (GitProvider r) (gits.Login fragment))
              (Some fragment) = Some merged
          ∧ new = GitUserToUser r merged
          ∧ (res, w') = created r new w.
Proof.
  destruct user as [user|].
  2:{ eexists _, _, _. split; [done|]. by intros new ?%elem_of_nil. }
  destruct (GitUserAsUser_resolved r user w) as (res & w' & calls & Hrun & Hres).
  exists res, w', calls. split; [done|]. intros new Hin.
  destruct Hres as [| | |before ? Hb|before ? Hb|before ? ? Hb
                   |before ? ? Hb|before ? ? ? Hb
                   |before stored merged Hb Hall Hnone Hemail Hmerged];
    try (by which_call Hin); try (before_lists Hb; by which_call Hin).
  exists user, stored, merged.
  assert (new = GitUserToUser r merged) as ->.
  { before_lists Hb; which_call Hin; by injection Hin. }
  split; [done|]. split.
  { intros Hlogin. split; [|by apply Hnone]. by before_lists Hb. }
  repeat split; try done. by destruct (created _ _ _).
Qed.

(** X10: an [Update] of [GitUserAsUser] is for a record of the store, with
    its name, namespace, login, name, email, url and avatar as they were;
    the label of the provider is set to the login of the fragment and every
    other label is kept. Either the accounts are kept and the error of the
    store is tested before its answer is read (line 233), or one account of
    the provider is added at the end and the answer of the store is read
    before its error is tested (line 277), a fault when it is [nil]; the
    store is left as the [Update] left it. *)
Theorem update_keeps_the_record (user : option gits.GitUser) w :
  ∃ res w' calls,
    GitUserAsUser r user w = (res, w', calls)
    ∧ ∀ u, CallUpdate u ∈ calls →
        ∃ fragment stored found labels,
          user = Some fragment
          ∧ List (JXClient r) (Namespace r) everyUser w = Ok stored
          ∧ found ∈ stored
          ∧ sameRecord u found
          ∧ Labels u = Some labels
          ∧ labels !! GitProviderKey r = Some (gits.Login fragment)
          ∧ (∀ k, k ≠ GitProviderKey r →
               labels !! k = default ∅ (Labels found) !! k)
          ∧ ((Accounts (Spec u) = Accounts (Spec found)
              ∧ (res, w') = updated r u w)
             ∨ (∃ login, Accounts (Spec u)
                         = Accounts (Spec found) ++ [accountOf r login])
               ∧ (res, w') = updatedAndRead r u w).
Proof.
  destruct user as [user|].
  2:{ eexists _, _, _. split; [done|]. by intros u ?%elem_of_nil. }
  destruct (GitUserAsUser_resolved r user w) as (res & w' & calls & Hrun & Hres).
  exists res, w', calls. split; [done|]. intros u Hin.
  assert (∀ found : User, ∀ k, k ≠ GitProviderKey r →
            <[GitProviderKey r := gits.Login user]> (default ∅ (Labels found)) !! k
            = default ∅ (Labels found) !! k) as Hother.
  { intros found k Hk. by apply lookup_insert_ne. }
  destruct Hres as [| | |before ? Hb|before ? Hb
                   |before stored found Hb Hlogin Hall Haccount
                   |before ? ? Hb
                   |before stored gitUser found Hb Hall Hnone Hinfo Hemail
                   |before ? ? Hb];
    try (by which_call Hin); try (before_lists Hb; by which_call Hin).
  - assert (u = healedRecord r user found) as ->.
    { before_lists Hb; which_call Hin; by injection Hin. }
    exists user, stored, found,
      (<[GitProviderKey r := gits.Login user]> (default ∅ (Labels found))).
    split; [done|]. split; [done|]. split.
    { apply (accountPossibles_stored r (gits.Login user)).
      rewrite Haccount. apply list_elem_of_here. }
    split; [done|]. split; [done|]. split; [apply lookup_insert_eq|].
    split; [apply Hother|]. left. split; [done|]. by destruct (updated _ _ _).
  - assert (u = linkedRecord r user gitUser found) as ->.
    { before_lists Hb; which_call Hin; by injection Hin. }
    exists user, stored, found,
      (<[GitProviderKey r := gits.Login user]> (default ∅ (Labels found))).
    split; [done|]. split; [done|]. split.
    { apply (emailPossibles_stored (Some gitUser)).
      rewrite Hemail. apply list_elem_of_here. }
    split; [done|]. split; [done|]. split; [apply lookup_insert_eq|].
    split; [apply Hother|]. right. split; [by eexists|].
    by destruct (updatedAndRead _ _ _).
Qed.

(** X11: of the calls on the store and the lookups of a user at the
    provider (the reads of the kind of the provider are not counted), one
    resolution makes at most four: at most two lists of the store, one
    lookup and one write. The lookup is for the login of the fragment only
    and comes after the whole store was listed, and the list by label, if
    any, is the first of these calls and is made only with a login. *)
Theorem call_budget (user : option gits.GitUser) w :
  ∃ res w' calls,
    GitUserAsUser r user w = (res, w', calls)
    ∧ length (lists calls) ≤ 2
    ∧ length (lookups calls) ≤ 1
    ∧ length (writes calls) ≤ 1
    ∧ length calls ≤ 4
    ∧ (∀ login, CallUserInfo login ∈ calls →
         ∃ fragment stored,
           user = Some fragment ∧ login = gits.Login fragment
           ∧ List (JXClient r) (Namespace r) everyUser w = Ok stored)
    ∧ (∀ opts, CallList opts ∈ calls →
         opts = everyUser
         ∨ ∃ fragment rest,
             user = Some fragment ∧ gits.Login fragment ≠ ""
             ∧ opts = byLabel r (gits.Login fragment)
             ∧ calls = CallList opts :: rest).
Proof.
  destruct user as [user|].
  2:{ eexists _, _, _. split; [done|]. cbn. do 4 (split; [lia|]).
      split; by intros ? ?%elem_of_nil. }
  destruct (GitUserAsUser_resolved r user w) as (res & w' & calls & Hrun & Hres).
  exists res, w', calls. split; [done|].
  destruct Hres as [| | |before ? Hb|before ? Hb|before ? ? Hb
                   |before ? ? Hb|before ? ? ? Hb|before ? ? Hb];
    try before_lists Hb; cbn; do 4 (split; [lia|]); split;
    intros x Hin; which_call Hin;
    first [ injection Hin as ->; by eauto 10
          | by injection Hin as ->; left ].
Qed.

End Frame.

(** *** The callers of [GitUserAsUser] *)

Section Callers.

Context {W E : Type} (r : GitUserResolver W E).

Implicit Types (user : gits.GitUser) (w : W) (calls : list call).

Local Ltac which_call H :=
  cbn in H;
  repeat (apply elem_of_cons in H as [H|H]; [try discriminate H|]);
  try (by apply elem_of_nil in H).

Local Ltac before_lists H :=
  destruct H as [[? ->]|(? & ? & ->)].

Lemma GitUserAsUser_writes_le (user : option gits.GitUser) w :
  ∃ res w' calls,
    GitUserAsUser r user w = (res, w', calls) ∧ length (writes calls) ≤ 1.
Proof.
  destruct user as [user|].
  2:{ eexists _, _, _. split; [done|]. cbn. lia. }
  destruct (GitUserAsUser_resolved r user w) as (res & w' & calls & Hrun & Hres).
  exists res, w', calls. split; [done|].
  destruct Hres as [| | |before ? Hb|before ? Hb|before ? ? Hb
                   |before ? ? Hb|before ? ? ? Hb|before ? ? Hb];
    try before_lists Hb; cbn; lia.
Qed.

Lemma resolveEach_cons answer user (users : list gits.GitUser) w :
  resolveEach r answer (user :: users) w
  = match GitUserAsUser r (Some user) w with
    | (Ok u, w1, calls1) =>
        match resolveEach r (answer ++ [Spec u]) users w1 with
        | (res, w2, calls2) => (res, w2, calls1 ++ calls2)
        end
    | (Err e, w1, calls1) => (Err e, w1, calls1)
    end.
Proof. reflexivity. Qed.

Lemma resolveEach_bound (users : list gits.GitUser) :
  ∀ answer w,
    ∃ res w' calls,
      resolveEach r answer users w = (res, w', calls)
      ∧ length (writes calls) ≤ length users
      ∧ ∀ details, res = Ok details →
          length details = length answer + length users.
Proof.
  induction users as [|user users IH]; intros answer w.
  - eexists _, _, _. split; [done|]. cbn. split; [lia|].
    intros details [= <-]. lia.
  - rewrite resolveEach_cons.
    destruct (GitUserAsUser_writes_le (Some user) w)
      as (res & w1 & calls1 & -> & Hle).
    destruct res as [u|e].
    + destruct (IH (answer ++ [Spec u]) w1)
        as (res & w2 & calls2 & Hrest & Hle2 & Hlen).
      rewrite Hrest.
      eexists _, _, _. split; [done|]. rewrite writes_app, length_app.
      rewrite length_cons.
      split; [lia|]. intros details Hres. rewrite (Hlen details Hres).
      rewrite length_app. cbn. lia.
    + eexists _, _, _. split; [done|]. rewrite length_cons.
      split; [lia|]. done.
Qed.

(** The details answered so far play no part in the resolutions to come. *)
Lemma resolveEach_answer (users : list gits.GitUser) :
  ∀ answer w,
    resolveEach r answer users w
    = match resolveEach r [] users w with
      | (Ok details, w', calls) => (Ok (answer ++ details), w', calls)
      | (Err e, w', calls) => (Err e, w', calls)
      end.
Proof.
  induction users as [|user users IH]; intros answer w.
  - cbn. by rewrite app_nil_r.
  - rewrite !resolveEach_cons.
    destruct (GitUserAsUser r (Some user) w) as [[[u|e] w1] calls1]; [|done].
    rewrite (IH (answer ++ [Spec u])), (IH ([] ++ [Spec u])).
    destruct (resolveEach r [] users w1) as [[[details|e] w2] calls2]; [|done].
    by rewrite <-app_assoc.
Qed.

(** X12: [GitUserSliceAsUserDetailsSlice] writes to the store at most once
    for every git user of the slice and answers as many details as there are
    git users when it answers any. The resolution of a slice is that of its
    parts one after the other, the later on the store the earlier left; it
    ends with the first part that fails, no later git user being resolved. *)
Theorem slice_resolution (users : list gits.GitUser) w :
  (∃ res w' calls,
     GitUserSliceAsUserDetailsSlice r users w = (res, w', calls)
     ∧ length (writes calls) ≤ length users
     ∧ ∀ details, res = Ok details → length details = length users)
  ∧ ∀ users1 users2,
      users = users1 ++ users2 →
      GitUserSliceAsUserDetailsSlice r users w
      = match GitUserSliceAsUserDetailsSlice r users1 w with
        | (Ok details1, w1, calls1) =>
            match GitUserSliceAsUserDetailsSlice r users2 w1 with
            | (Ok details2, w2, calls2) =>
                (Ok (details1 ++ details2), w2, calls1 ++ calls2)
            | (Err e, w2, calls2) => (Err e, w2, calls1 ++ calls2)
            end
        | (Err e, w1, calls1) => (Err e, w1, calls1)
        end.
Proof.
  split.
  - unfold GitUserSliceAsUserDetailsSlice.
    destruct (resolveEach_bound users [] w)
      as (res & w' & calls & Hrun & Hle & Hlen).
    by eexists _, _, _.
  - intros users1 users2 ->. unfold GitUserSliceAsUserDetailsSlice.
    revert w. induction users1 as [|user users1 IH]; intros w.
    + cbn [app]. cbn.
      by destruct (resolveEach r [] users2 w) as [[[details|e] w2] calls2].
    + cbn [app]. rewrite !resolveEach_cons.
      destruct (GitUserAsUser r (Some user) w) as [[[u|e] w1] calls1]; [|done].
      rewrite (resolveEach_answer (users1 ++ users2) ([] ++ [Spec u])).
      rewrite (resolveEach_answer users1 ([] ++ [Spec u])). rewrite IH.
      destruct (resolveEach r [] users1 w1) as [[[details1|e] w2] calls2];
        [|done].
      destruct (resolveEach r [] users2 w2) as [[[details2|e] w3] calls3];
        by rewrite <-!app_assoc.
Qed.

(** X13: a signature has no login, so [GitSignatureAsUser] always lists the
    whole store first and never by label, asks the provider for the empty
    login only, and, when it finds a record by email, sets the label of the
    provider of that record to the empty login. *)
Theorem GitSignatureAsUser_by_email (signature : object.Signature) w :
  ∃ res w' calls,
    GitSignatureAsUser r signature w = (res, w', CallList everyUser :: calls)
    ∧ (∀ opts, CallList opts ∉ calls)
    ∧ (∀ login, CallUserInfo login ∈ calls → login = "")
    ∧ (∀ u, CallUpdate u ∈ calls →
         ∃ labels, Labels u = Some labels ∧ labels !! GitProviderKey r = Some "")
    ∧ (∀ new, CallCreate new ∈ calls →
         ∃ merged, new = GitUserToUser r merged
           ∧ gits.Name merged
             = preferred
                 (default "" (gits.Name <$> gits.UserInfo (GitProvider r) ""))
                 (object.Name signature)
           ∧ gits.Email merged
             = preferred
                 (default "" (gits.Email <$> gits.UserInfo (GitProvider r) ""))
                 (object.Email signature)).
Proof.
  unfold GitSignatureAsUser. cbv zeta.
  set (user := {| gits.Email := object.Email signature;
                  gits.Name := object.Name signature;
                  gits.Login := ""; gits.URL := ""; gits.AvatarURL := "" |}).
  destruct (GitUserAsUser_resolved r user w) as (res & w' & calls & Hrun & Hres).
  rewrite Hrun.
  destruct Hres as [| | |before ? Hb|before ? Hb|before ? ? Hb
                   |before ? ? Hb|before ? ? ? Hb
                   |before stored merged Hb Hall Hnone Hemail Hmerged];
    try done; (destruct Hb as [[_ ->]|(? & _)]; [|done]); cbn [app];
    eexists _, _, _; (split; [done|]);
    (split; [intros x Hin; which_call Hin|]);
    (split; [intros x Hin; which_call Hin; by injection Hin|]);
    (split; [intros x Hin; which_call Hin|]); try (intros x Hin; by which_call Hin).
  - injection Hin as ->. eexists. split; [done|]. apply lookup_insert_eq.
  - intros new Hin. which_call Hin. injection Hin as ->.
    exists merged. split; [done|]. revert Hmerged. cbn.
    destruct (gits.UserInfo _ _) as [gitUser|]; cbn.
    + intros [= <-]. cbn. by rewrite !merge_field.
    + intros [= <-]. done.
Qed.

End Callers.

(** *** [UpdateUserFromPRAuthor] on every input *)

Section Author.

Context {W E : Type} (r : GitUserResolver W E).

Lemma commitAuthorEmail_Some login commits email :
  commitAuthorEmail login commits = Some email →
  ∃ commit matched,
    commit ∈ commits ∧ gits.Author commit = Some matched
    ∧ gits.Login matched = login ∧ gits.Email matched = email.
Proof.
  induction commits as [|commit commits IH]; cbn; [done|].
  destruct (gits.Author commit) as [author|] eqn:Hauthor.
  - destruct (decide _) as [->|_].
    + intros [= <-]. exists commit, author. split; [apply list_elem_of_here|done].
    + intros (c & m & Hin & ?)%IH. exists c, m.
      split; [by apply list_elem_of_further|done].
  - intros (c & m & Hin & ?)%IH. exists c, m.
    split; [by apply list_elem_of_further|done].
Qed.

(** X14: whatever it is given, [UpdateUserFromPRAuthor] makes no call at all
    and answers the record it was given ([nil] included), or makes the one
    call [Update] and answers what the store answers. The [Update] is for
    the given record with nothing but the email changed, to the email of an
    author of one of the commits whose login is the record's, and it is
    made only with a pull request. *)
Theorem UpdateUserFromPRAuthor_calls (author : option User)
    (pullRequest : option gits.GitPullRequest) (commits : list gits.GitCommit)
    (w : W) :
  ∃ res w' calls,
    UpdateUserFromPRAuthor r author pullRequest commits w = (res, w', calls)
    ∧ ((calls = [] ∧ w' = w ∧ res = Ok author)
       ∨ ∃ a commit matched backfilled,
           author = Some a ∧ is_Some pullRequest
           ∧ commit ∈ commits ∧ gits.Author commit = Some matched
           ∧ gits.Login matched = authorLogin r a
           ∧ calls = [CallUpdate backfilled]
           ∧ res = notNil (updated r backfilled w).1
           ∧ w' = (updated r backfilled w).2
           ∧ Email (Spec backfilled) = gits.Email matched
           ∧ ObjectMeta backfilled = ObjectMeta a
           ∧ Accounts (Spec backfilled) = Accounts (Spec a)
           ∧ Login (Spec backfilled) = Login (Spec a)
           ∧ Name (Spec backfilled) = Name (Spec a)
           ∧ URL (Spec backfilled) = URL (Spec a)
           ∧ AvatarURL (Spec backfilled) = AvatarURL (Spec a)).
Proof.
  unfold UpdateUserFromPRAuthor.
  destruct pullRequest as [pr|]; [|eexists _, _, _; split; [done|by left]].
  destruct author as [a|]; [|eexists _, _, _; split; [done|by left]].
  destruct (commitAuthorEmail _ commits) as [email|] eqn:Hemail;
    [|eexists _, _, _; split; [done|by left]].
  apply commitAuthorEmail_Some in Hemail as (commit & matched & ? & ? & ? & <-).
  unfold mbind, M_bind, bind. rewrite run_updateUser.
  exists (notNil (updated r (setEmail (gits.Email matched) a) w).1),
    (updated r (setEmail (gits.Email matched) a) w).2,
    [CallUpdate (setEmail (gits.Email matched) a)].
  split.
  { by destruct (updated _ _ _).1. }
  right. exists a, commit, matched, (setEmail (gits.Email matched) a).
  repeat split; done.
Qed.

End Author.

(** *** The email stage *)

Section EmailStage.

Context {W E : Type} (r : GitUserResolver W E).

Implicit Types (user : gits.GitUser) (w : W) (calls : list call).

(** The run of [GitUserAsUser] once the stage of lines 242–292 is reached. *)
Lemma GitUserAsUser_reaches_email user stored w :
  gits.Login user = ""
  ∨ (List (JXClient r) (Namespace r) (byLabel r (gits.Login user)) w = Ok []
     ∧ accountPossibles (GitProviderKey r) (gits.Login user) stored = []) →
  List (JXClient r) (Namespace r) everyUser w = Ok stored →
  ∃ before,
    writes before = []
    ∧ GitUserAsUser r (Some user) w
      = match resolveByEmail r stored user w with
        | (res, w', calls) => (res, w', before ++ calls)
        end.
Proof.
  intros Hreach Hall.
  assert (resolveByAccount r user w
          = match resolveByEmail r stored user w with
            | (res, w', calls) => (res, w', [CallList everyUser] ++ calls)
            end) as Hrun.
  { unfold resolveByAccount. fold (@everyUser). rewrite run_listUsers, Hall.
    destruct (decide _) as [Hlogin|Hlogin].
    - destruct Hreach as [?|[_ ->]]; [done|].
      by destruct (resolveByEmail _ _ _ _) as [[? ?] ?].
    - by destruct (resolveByEmail _ _ _ _) as [[? ?] ?]. }
  unfold GitUserAsUser. destruct (decide _) as [Hlogin|Hlogin].
  - destruct Hreach as [?|[Hlabel _]]; [done|].
    fold (byLabel r (gits.Login user)). rewrite run_listUsers, Hlabel, Hrun.
    exists [CallList (byLabel r (gits.Login user)); CallList everyUser].
    split; [done|]. by destruct (resolveByEmail _ _ _ _) as [[? ?] ?].
  - rewrite Hrun. exists [CallList everyUser]. split; [done|].
    by destruct (resolveByEmail _ _ _ _) as [[? ?] ?].
Qed.

Lemma filter_two {A} (P : A → Prop) `{∀ x, Decision (P x)}
    (l1 l2 l3 : list A) u1 u2 :
  P u1 → P u2 → 1 < length (filter P (l1 ++ u1 :: l2 ++ u2 :: l3)).
Proof.
  intros H1 H2.
  rewrite filter_app, filter_cons_True, filter_app, filter_cons_True by done.
  rewrite length_app. cbn. rewrite length_app. cbn. lia.
Qed.

(** C1, amended: in the stage of the provider lookup, against the git user
    the provider answered, a stored record is a candidate exactly when its
    email is the git user's as strings, empty or not. When exactly one
    stored record has that email, [GitUserAsUser] updates it, with the
    account of the git user added, and answers the record the store
    answers; when two stored records have it, the answer is the error of
    more than one user with the email, with no write. Nothing tests an
    email for being empty. *)
Theorem email_match_is_equality user gitUser stored w :
  gits.Login user = ""
  ∨ (List (JXClient r) (Namespace r) (byLabel r (gits.Login user)) w = Ok []
     ∧ accountPossibles (GitProviderKey r) (gits.Login user) stored = []) →
  List (JXClient r) (Namespace r) everyUser w = Ok stored →
  gits.UserInfo (GitProvider r) (gits.Login user) = Some gitUser →
  (∀ u, u ∈ emailPossibles (Some gitUser) stored
        ↔ u ∈ stored ∧ Email (Spec u) = gits.Email gitUser)
  ∧ (∀ before found after,
       stored = before ++ found :: after →
       Email (Spec found) = gits.Email gitUser →
       Forall (λ u, Email (Spec u) ≠ gits.Email gitUser) before →
       Forall (λ u, Email (Spec u) ≠ gits.Email gitUser) after →
       ∃ linked calls,
         writes calls = [CallUpdate linked]
         ∧ sameRecord linked found
         ∧ Accounts (Spec linked)
             = Accounts (Spec found) ++ [accountOf r (gits.Login gitUser)]
         ∧ ∀ answered w',
             Update (JXClient r) (Namespace r) linked w = (Updated answered, w') →
             GitUserAsUser r (Some user) w = (Ok answered, w', calls))
  ∧ (∀ l1 u1 l2 u2 l3,
       stored = l1 ++ u1 :: l2 ++ u2 :: l3 →
       Email (Spec u1) = gits.Email gitUser →
       Email (Spec u2) = gits.Email gitUser →
       ∃ found calls,
         GitUserAsUser r (Some user) w
           = (Err (MoreThanOneWithEmail (gits.Email gitUser) found), w, calls)
         ∧ writes calls = []).
Proof.
  intros Hreach Hall Hinfo.
  destruct (GitUserAsUser_reaches_email user stored w Hreach Hall)
    as (pre & Hpre & Hrun).
  split; [|split].
  - intros u. unfold emailPossibles. rewrite list_elem_of_filter. tauto.
  - intros before found after -> Hfound Hbefore Hafter.
    pose proof (emailPossibles_one gitUser before after found
                  Hbefore Hafter Hfound) as Hone.
    exists (linkedRecord r user gitUser found),
      (pre ++ [CallUserInfo (gits.Login user);
               CallUpdate (linkedRecord r user gitUser found)]).
    split; [by rewrite writes_app, Hpre|]. split; [done|]. split; [done|].
    intros answered w' Hupdate. rewrite Hrun.
    assert (resolveByEmail r (before ++ found :: after) user w
            = ((updatedAndRead r (linkedRecord r user gitUser found) w).1,
               (updatedAndRead r (linkedRecord r user gitUser found) w).2,
               [CallUserInfo (gits.Login user);
                CallUpdate (linkedRecord r user gitUser found)])) as ->.
    { unfold resolveByEmail. rewrite run_userInfo, Hinfo, Hone.
      by rewrite run_updateUserAndLog. }
    unfold updatedAndRead. by rewrite Hupdate.
  - intros l1 u1 l2 u2 l3 -> H1 H2. rewrite Hrun.
    rewrite (resolveByEmail_several r _ user gitUser w Hinfo).
    + eexists _, _. split; [done|]. by rewrite writes_app, Hpre.
    + cbn. by apply filter_two.
Qed.

End EmailStage.

(** ** Properties of the package [pki] *)

Import certificates.

Section Secrets.

Context {W E : Type} (client : pki.SecretInterface W E) (ns : string).

(** The loop of lines 53–60 on the names it is to delete. *)
Lemma cleanEach_deleted (secrets : list pki.Secret) :
  ∀ w, ∃ err w' deleted,
    pki.cleanEach client ns secrets w = (err, w', deleted)
    ∧ ((err = None ∧ deleted = tlsNames (pki.secretName <$> secrets))
       ∨ ∃ before name after e,
           tlsNames (pki.secretName <$> secrets) = before ++ name :: after
           ∧ deleted = before ++ [name]
           ∧ err = Some (pki.FailedToDelete name e)).
Proof.
  unfold tlsNames.
  induction secrets as [|s secrets IH]; intros w; cbn [pki.cleanEach].
  - eexists _, _, _. split; [done|]. by left.
  - rewrite fmap_cons.
    destruct (String.prefix _ _) eqn:Hprefix.
    + rewrite filter_cons_True by done.
      destruct (pki.Delete client ns _ w) as [[e|] w1].
      * eexists _, _, _. split; [done|]. right.
        by eexists [], (pki.secretName s), _, e.
      * destruct (IH w1) as (err & w2 & deleted & -> & Hcases).
        eexists _, _, _. split; [done|].
        destruct Hcases as [[-> ->]|(before & name & after & e & -> & -> & ->)].
        -- by left.
        -- right. by exists (pki.secretName s :: before), name, after, e.
    + rewrite filter_cons_False by by rewrite Hprefix.
      apply IH.
Qed.

(** X15: [CleanCertSecrets] deletes nothing when the list of the secrets
    fails, and hands that error back. Otherwise it calls [Delete] for the
    listed names that start with "tls-", in the order of the list and for no
    other name: for all of them when it answers no error, and up to the
    first name whose deletion fails when it answers an error, which then
    names that secret. *)
Theorem CleanCertSecrets_deletes (w : W) :
  ∃ err w' deleted,
    pki.CleanCertSecrets client ns w = (err, w', deleted)
    ∧ match pki.List client ns {| metav1.LabelSelector := "" |} w with
      | effects.Err e => err = Some (pki.ListFailed e) ∧ w' = w ∧ deleted = []
      | effects.Ok secrets =>
          (err = None ∧ deleted = tlsNames (pki.secretName <$> secrets))
          ∨ ∃ before name after e,
              tlsNames (pki.secretName <$> secrets) = before ++ name :: after
              ∧ deleted = before ++ [name]
              ∧ err = Some (pki.FailedToDelete name e)
      end.
Proof.
  unfold pki.CleanCertSecrets.
  destruct (pki.List client ns _ w) as [secrets|e].
  - apply cleanEach_deleted.
  - by eexists _, _, _.
Qed.

Lemma cleanEach_succeeds (secrets : list pki.Secret) :
  (∀ name w, String.prefix pki.certSecretPrefix name = true →
             (pki.Delete client ns name w).1 = None) →
  ∀ w, ∃ w',
    pki.cleanEach client ns secrets w
    = (None, w', tlsNames (pki.secretName <$> secrets)).
Proof.
  intros Hdelete. unfold tlsNames.
  induction secrets as [|s secrets IH]; intros w; cbn [pki.cleanEach].
  - by eexists.
  - rewrite fmap_cons.
    destruct (String.prefix _ _) eqn:Hprefix.
    + rewrite filter_cons_True by done.
      specialize (Hdelete (pki.secretName s) w Hprefix).
      destruct (pki.Delete client ns _ w) as [[e|] w1]; [done|].
      destruct (IH w1) as [w2 ->]. by eexists.
    + rewrite filter_cons_False by by rewrite Hprefix.
      apply IH.
Qed.

(** X16: when the secrets are listed and no deletion of a "tls-" name is
    refused, [CleanCertSecrets] answers no error and has called [Delete]
    for every listed name that starts with "tls-", once for each time it is
    listed, and for no other. *)
Theorem CleanCertSecrets_succeeds (secrets : list pki.Secret) (w : W) :
  pki.List client ns {| metav1.LabelSelector := "" |} w = effects.Ok secrets →
  (∀ name w, String.prefix pki.certSecretPrefix name = true →
             (pki.Delete client ns name w).1 = None) →
  ∃ w',
    pki.CleanCertSecrets client ns w
    = (None, w', tlsNames (pki.secretName <$> secrets))
    ∧ ∀ name, name ∈ tlsNames (pki.secretName <$> secrets)
              ↔ name ∈ pki.secretName <$> secrets
                ∧ String.prefix pki.certSecretPrefix name = true.
Proof.
  intros Hlist Hdelete. unfold pki.CleanCertSecrets. rewrite Hlist.
  destruct (cleanEach_succeeds secrets Hdelete w) as [w' ->].
  exists w'. split; [done|]. intros name. unfold tlsNames.
  rewrite list_elem_of_filter. tauto.
Qed.

End Secrets.

(** *** Certificates of services *)

Section Certificates.

Context (ServiceAppName : pki.Service → string).

Lemma ToCertificates_fmap (services : list pki.Service) :
  pki.ToCertificates ServiceAppName services
  = certificateOf ServiceAppName <$> services.
Proof.
  unfold pki.ToCertificates.
  assert (∀ result,
    foldl (λ result svc,
             let app := ServiceAppName svc in
             let cert := pki.certSecretPrefix +:+ app in
             let ns := metav1.Namespace (pki.serviceMeta svc) in
             result ++ [{| pki.Name := cert; pki.Namespace := ns |}])
      result services
    = result ++ (certificateOf ServiceAppName <$> services)) as Hgen.
  { induction services as [|svc services IH]; intros result; cbn.
    - by rewrite app_nil_r.
    - by rewrite IH, <-app_assoc. }
  apply Hgen.
Qed.

Lemma prefix_append (s1 s2 : string) : String.prefix s1 (s1 +:+ s2) = true.
Proof.
  induction s1 as [|a s1 IH]; simpl; [by destruct s2|].
  destruct (Ascii.ascii_dec a a); [done|congruence].
Qed.

(** X17: [ToCertificates] answers one certificate for every service, in the
    order of the services: the certificate of a service has the namespace
    of the service and the name "tls-" followed by the application of the
    service, so that every name passes the test by which
    [CleanCertSecrets] picks the secrets to delete. *)
Theorem ToCertificates_of_services (services : list pki.Service) :
  length (pki.ToCertificates ServiceAppName services) = length services
  ∧ (∀ i svc, services !! i = Some svc →
       ∃ cert,
         pki.ToCertificates ServiceAppName services !! i = Some cert
         ∧ pki.Name cert = "tls-" +:+ ServiceAppName svc
         ∧ pki.Namespace cert = metav1.Namespace (pki.serviceMeta svc))
  ∧ Forall (λ cert, String.prefix pki.certSecretPrefix (pki.Name cert) = true)
      (pki.ToCertificates ServiceAppName services).
Proof.
  rewrite ToCertificates_fmap. split; [by rewrite length_fmap|]. split.
  - intros i svc Hsvc. exists (certificateOf ServiceAppName svc).
    by rewrite list_lookup_fmap, Hsvc.
  - apply Forall_fmap, Forall_forall. intros svc _. apply prefix_append.
Qed.

End Certificates.

Section CleanCertificates.

Context {W E : Type} (client : pki.SecretInterface W E) (ns : string).
Context (ServiceAppName : pki.Service → string).

(** X18: when the secrets listed in the namespace are named after the
    certificates [ToCertificates] builds for some services and no deletion
    is refused, [CleanCertSecrets] deletes every one of them: the names
    [ToCertificates] builds are names [CleanCertSecrets] removes. *)
Theorem CleanCertSecrets_of_certificates (services : list pki.Service)
    (secrets : list pki.Secret) (w : W) :
  pki.List client ns {| metav1.LabelSelector := "" |} w = effects.Ok secrets →
  pki.secretName <$> secrets
    = pki.Name <$> pki.ToCertificates ServiceAppName services →
  (∀ name w, String.prefix pki.certSecretPrefix name = true →
             (pki.Delete client ns name w).1 = None) →
  ∃ w',
    pki.CleanCertSecrets client ns w
    = (None, w', pki.Name <$> pki.ToCertificates ServiceAppName services).
Proof.
  intros Hlist Hnames Hdelete. unfold pki.CleanCertSecrets. rewrite Hlist.
  destruct (cleanEach_succeeds client ns secrets Hdelete w) as [w' ->].
  exists w'. do 2 f_equal. rewrite Hnames, ToCertificates_fmap.
  unfold tlsNames. clear.
  induction services as [|svc services IH]; [done|].
  rewrite !fmap_cons, filter_cons_True; [by rewrite IH|].
  apply prefix_append.
Qed.

End CleanCertificates.

(** *** The string of a certificate *)

Lemma append_nil_l (t : string) : "" +:+ t = t.
Proof. reflexivity. Qed.

Lemma append_cons a (s t : string) :
  String.String a s +:+ t = String.String a (s +:+ t).
Proof. reflexivity. Qed.

Lemma String_sep_inj (ns1 ns2 name1 name2 : string) :
  contains slash ns1 = false →
  contains slash ns2 = false →
  ns1 +:+ "/" +:+ name1 = ns2 +:+ "/" +:+ name2 →
  ns1 = ns2 ∧ name1 = name2.
Proof.
  revert ns2. induction ns1 as [|a ns1 IH]; intros [|b ns2];
    cbn [contains]; rewrite ?append_cons, ?append_nil_l.
  - by intros _ _ [= ->].
  - intros _ Hb [= <- _]. by rewrite bool_decide_eq_true_2 in Hb.
  - intros Ha _ [= -> _]. by rewrite bool_decide_eq_true_2 in Ha.
  - intros [_ Ha]%orb_false_elim [_ Hb]%orb_false_elim [= -> Heq].
    by destruct (IH ns2 Ha Hb Heq) as [-> ->].
Qed.

(** X19: among certificates whose namespace has no "/", as the namespaces of
    a cluster have none, [String] tells certificates apart: two of them with
    the same string are the same certificate. *)
Theorem String_inj (c1 c2 : pki.Certificate) :
  contains slash (pki.Namespace c1) = false →
  contains slash (pki.Namespace c2) = false →
  pki.String c1 = pki.String c2 →
  c1 = c2.
Proof.
  destruct c1 as [name1 ns1], c2 as [name2 ns2]. unfold pki.String. cbn.
  intros H1 H2 Heq. by destruct (String_sep_inj _ _ _ _ H1 H2 Heq) as [-> ->].
Qed.

(** ** The further properties at work *)

Section MoreExamples.

Import memstore.

(** X6 at work: the provider knows [alice], and the record [al] has her
    email but no account and no label yet. *)
Lemma email_correlation_links_witness :
  ∃ record labels calls,
    writes calls = [CallUpdate record]
    ∧ (∀ answered w',
         Update (JXClient (resolver "github" [alice]))
           (Namespace (resolver "github" [alice])) record
           [user "bob" "bob@co.io" (linked "bob") None;
            user "al" "alice@co.io" [] None] = (Updated answered, w') →
         GitUserAsUser (resolver "github" [alice]) (Some (gitUser "alice" ""))
           [user "bob" "bob@co.io" (linked "bob") None;
            user "al" "alice@co.io" [] None] = (Ok answered, w', calls))
    ∧ (∀ returned e w',
         Update (JXClient (resolver "github" [alice]))
           (Namespace (resolver "github" [alice])) record
           [user "bob" "bob@co.io" (linked "bob") None;
            user "al" "alice@co.io" [] None]
         = (NotUpdated (Some returned) e, w') →
         GitUserAsUser (resolver "github" [alice]) (Some (gitUser "alice" ""))
           [user "bob" "bob@co.io" (linked "bob") None;
            user "al" "alice@co.io" [] None] = (Err (ClientError e), w', calls))
    ∧ (∀ e w',
         Update (JXClient (resolver "github" [alice]))
           (Namespace (resolver "github" [alice])) record
           [user "bob" "bob@co.io" (linked "bob") None;
            user "al" "alice@co.io" [] None] = (NotUpdated None e, w') →
         GitUserAsUser (resolver "github" [alice]) (Some (gitUser "alice" ""))
           [user "bob" "bob@co.io" (linked "bob") None;
            user "al" "alice@co.io" [] None] = (Err NilDereference, w', calls))
    ∧ sameRecord record (user "al" "alice@co.io" [] None)
    ∧ Accounts (Spec record)
        = Accounts (Spec (user "al" "alice@co.io" [] None))
          ++ [accountOf (resolver "github" [alice]) (gits.Login alice)]
    ∧ Labels record = Some labels
    ∧ labels !! GitProviderKey (resolver "github" [alice])
        = Some (gits.Login (gitUser "alice" ""))
    ∧ ∀ k, k ≠ GitProviderKey (resolver "github" [alice]) →
        labels !! k
        = default ∅ (Labels (user "al" "alice@co.io" [] None)) !! k.
Proof.
  apply (email_correlation_links (resolver "github" [alice])
           (gitUser "alice" "") alice (user "al" "alice@co.io" [] None)
           [user "bob" "bob@co.io" (linked "bob") None] []).
  - right. split; vm_compute; reflexivity.
  - vm_compute; reflexivity.
  - vm_compute; reflexivity.
  - repeat constructor. discriminate.
  - constructor.
  - reflexivity.
Defined.

(** X7 at work: nobody is stored, and the provider knows the email and the
    name of [alice], which the fragment does not give. *)
Lemma creation_prefers_provider_witness :
  ∃ merged calls,
    GitUserAsUser (resolver "github" [alice]) (Some (gitUser "alice" "")) []
      = ((created (resolver "github" [alice])
            (GitUserToUser (resolver "github" [alice]) merged) []).1,
         (created (resolver "github" [alice])
            (GitUserToUser (resolver "github" [alice]) merged) []).2, calls)
    ∧ writes calls
        = [CallCreate (GitUserToUser (resolver "github" [alice]) merged)]
    ∧ gits.Login merged
        = preferred (gits.Login alice) (gits.Login (gitUser "alice" ""))
    ∧ gits.Name merged
        = preferred (gits.Name alice) (gits.Name (gitUser "alice" ""))
    ∧ gits.Email merged
        = preferred (gits.Email alice) (gits.Email (gitUser "alice" ""))
    ∧ gits.URL merged
        = preferred (gits.URL alice) (gits.URL (gitUser "alice" ""))
    ∧ gits.AvatarURL merged
        = preferred (gits.AvatarURL alice)
            (gits.AvatarURL (gitUser "alice" "")).
Proof.
  apply (creation_prefers_provider (resolver "github" [alice])
           (gitUser "alice" "") alice [] []).
  - right. split; vm_compute; reflexivity.
  - vm_compute; reflexivity.
  - vm_compute; reflexivity.
  - constructor.
Defined.

(** X8 at work: the store cannot be reached. *)
Lemma failing_list_ends_resolution_witness :
  ∃ calls,
    GitUserAsUser offline.resolver (Some alice) tt
      = (Err (ClientError offline.Unavailable), tt, calls)
    ∧ writes calls = []
    ∧ ∀ login, CallUserInfo login ∉ calls.
Proof.
  apply (failing_list_ends_resolution offline.resolver alice
           offline.Unavailable tt).
  left. split; [discriminate|reflexivity].
Defined.

(** X16 at work: of three secrets of the namespace two hold a certificate. *)
Lemma CleanCertSecrets_succeeds_witness :
  ∃ w',
    pki.CleanCertSecrets inMemory "jx"
      [secret "jx" "tls-app"; secret "jx" "registry"; secret "jx" "tls-docs";
       secret "other" "tls-app"]
    = (None, w',
       tlsNames (pki.secretName <$>
                   [secret "jx" "tls-app"; secret "jx" "registry";
                    secret "jx" "tls-docs"]))
    ∧ ∀ name,
        name ∈ tlsNames (pki.secretName <$>
                           [secret "jx" "tls-app"; secret "jx" "registry";
                            secret "jx" "tls-docs"])
        ↔ name ∈ pki.secretName <$>
                   [secret "jx" "tls-app"; secret "jx" "registry";
                    secret "jx" "tls-docs"]
          ∧ String.prefix pki.certSecretPrefix name = true.
Proof.
  apply (CleanCertSecrets_succeeds inMemory "jx"
           [secret "jx" "tls-app"; secret "jx" "registry";
            secret "jx" "tls-docs"]).
  - vm_compute; reflexivity.
  - reflexivity.
Defined.

(** The run of X16 in full: the secret of the other namespace and the
    secret that holds no certificate are left. *)
Lemma CleanCertSecrets_in_memory :
  pki.CleanCertSecrets inMemory "jx"
    [secret "jx" "tls-app"; secret "jx" "registry"; secret "jx" "tls-docs";
     secret "other" "tls-app"]
  = (None, [secret "jx" "registry"; secret "other" "tls-app"],
     ["tls-app"; "tls-docs"]).
Proof. vm_compute; reflexivity. Qed.

(** X18 at work: the secrets of the certificates of two services. *)
Lemma CleanCertSecrets_of_certificates_witness :
  ∃ w',
    pki.CleanCertSecrets inMemory "jx"
      [secret "jx" "tls-app"; secret "jx" "tls-docs"]
    = (None, w',
       pki.Name <$> pki.ToCertificates appName
                      [service "jx" "app"; service "jx" "docs"]).
Proof.
  apply (CleanCertSecrets_of_certificates inMemory "jx" appName
           [service "jx" "app"; service "jx" "docs"]
           [secret "jx" "tls-app"; secret "jx" "tls-docs"]).
  - vm_compute; reflexivity.
  - vm_compute; reflexivity.
  - reflexivity.
Defined.

(** X19 at work, and why it needs its hypothesis: with a "/" in a namespace
    two certificates have the same string. *)
Lemma String_inj_witness :
  {| pki.Name := "tls-app"; pki.Namespace := "jx" |}
  = {| pki.Name := "tls-" +:+ "app"; pki.Namespace := "jx" |}.
Proof.
  apply (String_inj {| pki.Name := "tls-app"; pki.Namespace := "jx" |}
           {| pki.Name := "tls-" +:+ "app"; pki.Namespace := "jx" |});
    vm_compute; reflexivity.
Defined.

Lemma String_of_a_namespace_with_slash :
  pki.String {| pki.Name := "c"; pki.Namespace := "a/b" |}
  = pki.String {| pki.Name := "b/c"; pki.Namespace := "a" |}
  ∧ {| pki.Name := "c"; pki.Namespace := "a/b" |}
    ≠ {| pki.Name := "b/c"; pki.Namespace := "a" |}.
Proof. split; [vm_compute; reflexivity|discriminate]. Qed.

(** C1 at work on empty emails: [ann] has no email, [bob] has one, and the
    provider knows no email of the login. *)
Lemma email_match_is_equality_witness :
  ∃ record calls,
    writes calls = [CallUpdate record]
    ∧ sameRecord record (user "ann" "" [] None)
    ∧ Accounts (Spec record)
        = Accounts (Spec (user "ann" "" [] None))
          ++ [accountOf (resolver "github" [gitUser "alice" ""])
                (gits.Login (gitUser "alice" ""))]
    ∧ ∀ answered w',
        Update (JXClient (resolver "github" [gitUser "alice" ""]))
          (Namespace (resolver "github" [gitUser "alice" ""])) record
          [user "ann" "" [] None; user "bob" "bob@co.io" [] None]
        = (Updated answered, w') →
        GitUserAsUser (resolver "github" [gitUser "alice" ""])
          (Some (gitUser "alice" ""))
          [user "ann" "" [] None; user "bob" "bob@co.io" [] None]
        = (Ok answered, w', calls).
Proof.
  destruct (email_match_is_equality (resolver "github" [gitUser "alice" ""])
              (gitUser "alice" "") (gitUser "alice" "")
              [user "ann" "" [] None; user "bob" "bob@co.io" [] None]
              [user "ann" "" [] None; user "bob" "bob@co.io" [] None])
    as (_ & Hone & _).
  - right. split; vm_compute; reflexivity.
  - vm_compute; reflexivity.
  - vm_compute; reflexivity.
  - apply (Hone [] (user "ann" "" [] None) [user "bob" "bob@co.io" [] None]).
    + reflexivity.
    + reflexivity.
    + constructor.
    + repeat constructor. discriminate.
Defined.

(** Two records without email and a provider that knows no email of the
    login: neither is picked. *)
Lemma empty_emails_are_ambiguous :
  GitUserAsUser (resolver "github" [gitUser "alice" ""])
    (Some (gitUser "alice" ""))
    [user "ann" "" [] None; user "bo" "" [] None]
  = (Err (MoreThanOneWithEmail "" ["ann"; "bo"]),
     [user "ann" "" [] None; user "bo" "" [] None],
     [bySelector "jenkins.io/git-github-userid=alice"; bySelector "";
      CallUserInfo "alice"]).
Proof. vm_compute; reflexivity. Qed.

(** How a record comes to list an account twice: the provider answers
    [alice] for the login "Alice". Resolving "Alice" finds the record of
    [alice] by her email, adds her account once more and sets the label to
    "Alice"; resolving "alice" afterwards finds the account twice. *)
Lemma repeated_account_by_resolution :
  (first ← GitUserAsUser
             {| users.GitProvider :=
                  {| gits.Kind := "github"; gits.UserInfo _ := Some alice |};
                users.JXClient := client; users.Namespace := "jx" |}
             (Some (gitUser "Alice" ""));
   GitUserAsUser
     {| users.GitProvider :=
          {| gits.Kind := "github"; gits.UserInfo _ := Some alice |};
        users.JXClient := client; users.Namespace := "jx" |}
     (Some alice))
    [user "al" "alice@co.io" (linked "alice") (labelled "alice")]
  = (Err (MoreThanOneWithLogin "alice" key ["al"; "al"]),
     [user "al" "alice@co.io" (linked "alice" ++ linked "alice")
        (labelled "Alice")],
     [bySelector "jenkins.io/git-github-userid=Alice"; bySelector "";
      CallUserInfo "Alice";
      CallUpdate (user "al" "alice@co.io" (linked "alice" ++ linked "alice")
                    (labelled "Alice"));
      bySelector "jenkins.io/git-github-userid=alice"; bySelector ""]).
Proof. vm_compute; reflexivity. Qed.

End MoreExamples.
